(** * Health diary: event store, weather cache and DAY/NIGHT cycles

    A shallow embedding of the core of [src/main.js]: the cycle builder
    [buildCyclesFromEvents], the weather helpers [getDailyWeatherArrays],
    [nearestWeatherAtTs] and [weatherForEventTs], the event writes
    [addEvent], [updateEvent] and [deleteEvent], the range query
    [eventsBetween] and the statistics of [calcCycleStats].

    Timestamps are epoch milliseconds and are modelled as [Z]; temperature
    and humidity samples are rationals.  The two IndexedDB object stores
    are finite maps from the primary key to the record. *)

From Stdlib Require Import ZArith QArith Lia Ascii.
From stdpp Require Import gmap strings list sorting.

Local Open Scope Z_scope.

(** ** Data model *)

(** The [type] field of an event. *)
Inductive event_type :=
  | water | exercise | urinate | food | coffee | glicemia | sol
  | sweet | alcool | isotonic | wake | sleep_start | sleep_end.

Global Instance event_type_eq_dec : EqDecision event_type.
Proof. solve_decision. Defined.

(** The reading attached to an event: [{ ...hit, lat, lon }].  Coordinates
    are kept in thousandths of a degree, which is what
    [+pos.coords.latitude.toFixed(3)] leaves. *)
Record event_weather := {
  w_temp : Q;
  w_hum : Q;
  w_lat : Z;
  w_lon : Z;
}.

(** An event object.  A field that the object does not carry is [None]. *)
Record event := {
  ev_id : option string;
  ev_type : event_type;
  ev_ts : Z;
  ev_dateKey : option string;
  ev_subtype : option string;
  ev_amount : option Z;
  ev_note : option string;
  ev_level : option string;
  ev_duration : option string;
  ev_weather : option event_weather;
}.

(** The object literal [{ type, ts }] with an id, as the store returns it
    for an event that has no type-specific field. *)
Definition plain_event (i : string) (t : event_type) (ts : Z) : event :=
  {| ev_id := Some i; ev_type := t; ev_ts := ts; ev_dateKey := None;
     ev_subtype := None; ev_amount := None; ev_note := None;
     ev_level := None; ev_duration := None; ev_weather := None |}.

Inductive phase := DAY | NIGHT.

Global Instance phase_eq_dec : EqDecision phase.
Proof. solve_decision. Defined.

(** A derived cycle.  [startTs] and [endTs] are [None] for JS [null];
    [startEvent] and [endEvent] hold the boundary event or [None]. *)
Record cycle := {
  c_id : string;
  c_type : phase;
  startTs : option Z;
  endTs : option Z;
  startEvent : option event;
  endEvent : option event;
}.

(** ** Cycle builder *)

Module Builder.

(** The four mutable locals of [buildCyclesFromEvents]. *)
Record locals := {
  cycles : list cycle;
  cur_phase : phase;
  cur_startTs : option Z;
  startEventRef : option event;
}.

(** [sortedEvents.find(e => e.type === t)] *)
Definition find_type (t : event_type) (sortedEvents : list event) : option event :=
  List.find (fun e => bool_decide (ev_type e = t)) sortedEvents.

(** The seed: either the locals the scan starts from, or the early return
    with the single synthetic cycle. *)
Inductive seeded :=
  | Scan (st : locals)
  | Return (cs : list cycle).

Definition virtual_now (now : Z) : cycle :=
  {| c_id := "virtual-now"; c_type := DAY; startTs := Some now; endTs := None;
     startEvent := None; endEvent := None |}.

Definition seed (now : Z) (sortedEvents : list event) : seeded :=
  let firstSleepStart := find_type sleep_start sortedEvents in
  let firstSleepEnd := find_type sleep_end sortedEvents in
  (* the [else if (firstSleepEnd) ... else if (sortedEvents.length) ... else] chain *)
  let otherwise :=
    match firstSleepEnd with
    | Some e =>
        Scan {| cycles := []; cur_phase := DAY;
                cur_startTs := Some (ev_ts e); startEventRef := Some e |}
    | None =>
        match sortedEvents with
        | e0 :: _ =>
            Scan {| cycles := []; cur_phase := DAY;
                    cur_startTs := Some (ev_ts e0); startEventRef := None |}
        | [] => Return [virtual_now now]
        end
    end in
  match firstSleepStart with
  | Some s =>
      (* [!firstSleepEnd || firstSleepStart.ts < firstSleepEnd.ts] *)
      if match firstSleepEnd with
         | None => true
         | Some e => bool_decide (ev_ts s < ev_ts e)
         end
      then Scan {| cycles := []; cur_phase := NIGHT;
                   cur_startTs := Some (ev_ts s); startEventRef := Some s |}
      else otherwise
  | None => otherwise
  end.

(** [cycles.push({ id: uuid(), type, startTs, endTs: e.ts, ... })]: the
    [k]-th call of [uuid()] in a run yields [uuid k], and every push makes
    exactly one call. *)
Definition push (uuid : nat → string) (st : locals) (t : phase)
    (end_ts : option Z) (end_ev : option event) : list cycle :=
  cycles st ++ [ {| c_id := uuid (length (cycles st)); c_type := t;
                    startTs := cur_startTs st; endTs := end_ts;
                    startEvent := startEventRef st; endEvent := end_ev |} ].

(** One iteration of [for (const e of sortedEvents)]. *)
Definition step (uuid : nat → string) (st : locals) (e : event) : locals :=
  match ev_type e with
  | sleep_start =>
      match cur_phase st with
      | DAY =>
          {| cycles := match cur_startTs st with
                       | Some _ => push uuid st DAY (Some (ev_ts e)) (Some e)
                       | None => cycles st
                       end;
             cur_phase := NIGHT; cur_startTs := Some (ev_ts e);
             startEventRef := Some e |}
      | NIGHT =>
          {| cycles := push uuid st NIGHT (Some (ev_ts e)) None;
             cur_phase := NIGHT; cur_startTs := Some (ev_ts e);
             startEventRef := Some e |}
      end
  | sleep_end =>
      match cur_phase st with
      | NIGHT =>
          {| cycles := push uuid st NIGHT (Some (ev_ts e)) (Some e);
             cur_phase := DAY; cur_startTs := Some (ev_ts e);
             startEventRef := Some e |}
      | DAY =>
          {| cycles := cycles st;
             cur_phase := DAY; cur_startTs := Some (ev_ts e);
             startEventRef := Some e |}
      end
  | _ => st
  end.

Definition scan (uuid : nat → string) (st : locals) (sortedEvents : list event) : locals :=
  fold_left (step uuid) sortedEvents st.

End Builder.

Definition buildCyclesFromEvents (now : Z) (uuid : nat → string)
    (sortedEvents : list event) : list cycle :=
  match Builder.seed now sortedEvents with
  | Builder.Return cs => cs
  | Builder.Scan st0 =>
      let st := Builder.scan uuid st0 sortedEvents in
      Builder.push uuid st (Builder.cur_phase st) None None
  end.

(** Input ordered ascending by [ts]. *)
Fixpoint sorted_by_ts (l : list event) : bool :=
  match l with
  | e1 :: ((e2 :: _) as rest) => bool_decide (ev_ts e1 ≤ ev_ts e2) && sorted_by_ts rest
  | _ => true
  end.

(** ** Dates and keys *)

(** Exceptions that the modelled code can raise. *)
Inductive exn :=
  | RangeError     (* [toISOString] of an invalid [Date] *)
  | DataError      (* IndexedDB: no key on a [put], or an ill-formed key range *)
  | TypeError      (* property access on [undefined] *)
  | NetworkError   (* [fetch] rejected *)
  | SyntaxError    (* [resp.json()] on a body that is not JSON *)
  | FetchFailed.   (* [new Error('Falha ao buscar clima')] *)

Definition digit (v : Z) : ascii :=
  ascii_of_nat (48 + Z.to_nat (v `mod` 10)).

(** The [w] low decimal digits of [v], zero padded. *)
Fixpoint fixed_width (w : nat) (v : Z) : string :=
  match w with
  | O => ""
  | S w' => fixed_width w' (v `div` 10) +:+ String (digit v) ""
  end.

(** Decimal rendering of a non-negative integer, without leading zeros. *)
Fixpoint decimal_fuel (fuel : nat) (v : Z) : string :=
  match fuel with
  | O => ""
  | S fuel' =>
      if bool_decide (v < 10) then String (digit v) ""
      else decimal_fuel fuel' (v `div` 10) +:+ String (digit v) ""
  end.
Definition decimal (v : Z) : string := decimal_fuel (S (Z.to_nat (Z.log2 v))) v.

Definition msPerDay : Z := 86400000.
(** A [Date] is valid for time values of at most 8.64e15 in magnitude. *)
Definition maxTime : Z := 8640000000000000.

(** Year, month and day (UTC, proleptic Gregorian) of the day number
    [days] counted from 1970-01-01. *)
Definition civil_from_days (days : Z) : Z * Z * Z :=
  let z := days + 719468 in
  let era := z `div` 146097 in
  let doe := z - era * 146097 in
  let yoe := (doe - doe `div` 1460 + doe `div` 36524 - doe `div` 146096) `div` 365 in
  let doy := doe - (365 * yoe + yoe `div` 4 - yoe `div` 100) in
  let mp := (5 * doy + 2) `div` 153 in
  let d := doy - (153 * mp + 2) `div` 5 + 1 in
  let m := if bool_decide (mp < 10) then mp + 3 else mp - 9 in
  let y := yoe + era * 400 + (if bool_decide (m ≤ 2) then 1 else 0) in
  (y, m, d).

(** [String.prototype.slice(0, 10)] *)
Fixpoint take_chars (n : nat) (s : string) : string :=
  match n, s with
  | S n', String a s' => String a (take_chars n' s')
  | _, _ => ""
  end.

(** The date part of [toISOString()]: four-digit years as they are, other
    years with a sign and six digits. *)
Definition iso_date (y m d : Z) : string :=
  let year :=
    if bool_decide (0 ≤ y ≤ 9999) then fixed_width 4 y
    else (if bool_decide (0 ≤ y) then "+" else "-") +:+ fixed_width 6 (Z.abs y) in
  year +:+ "-" +:+ fixed_width 2 m +:+ "-" +:+ fixed_width 2 d.

(** [ymd(new Date(ts))], that is [new Date(ts).toISOString().slice(0,10)]. *)
Definition ymd (ts : Z) : exn + string :=
  if bool_decide (Z.abs ts ≤ maxTime) then
    let '(y, m, d) := civil_from_days (ts `div` msPerDay) in
    inr (take_chars 10 (iso_date y m d))
  else inl RangeError.

(** [String(x)] for a coordinate [x] of [k] thousandths of a degree. *)
Definition coord_to_string (k : Z) : string :=
  let a := Z.abs k in
  let frac := a `mod` 1000 in
  let frac_digits :=
    if bool_decide (frac = 0) then ""
    else if bool_decide (frac `mod` 100 = 0) then "." +:+ fixed_width 1 (frac `div` 100)
    else if bool_decide (frac `mod` 10 = 0) then "." +:+ fixed_width 2 (frac `div` 10)
    else "." +:+ fixed_width 3 frac in
  (if bool_decide (k < 0) then "-" else "") +:+ decimal (a `div` 1000) +:+ frac_digits.

(** The primary key of a cache record: [`${dateKey}:${lat}:${lon}`]. *)
Definition cache_key (dateKey : string) (lat lon : Z) : string :=
  dateKey +:+ ":" +:+ coord_to_string lat +:+ ":" +:+ coord_to_string lon.

(** [url.toString()] after the six [searchParams.set] calls. *)
Definition weather_url (dateKey : string) (lat lon : Z) : string :=
  "https://api.open-meteo.com/v1/forecast?latitude=" +:+ coord_to_string lat
  +:+ "&longitude=" +:+ coord_to_string lon
  +:+ "&hourly=temperature_2m%2Crelative_humidity_2m&timezone=auto&start_date="
  +:+ dateKey +:+ "&end_date=" +:+ dateKey.

(** ** Weather records *)

(** A JS number that [Math.min] and [Math.max] can return. *)
Inductive jsnum :=
  | Finite (q : Q)
  | PosInfinity
  | NegInfinity.

(** An entry of an hourly series is a number or [null] ([None]). *)
Definition sample := option Q.

(** [ToNumber] of an entry: [null] counts as 0. *)
Definition sample_value (x : sample) : Q := from_option id 0%Q x.

(** [Math.min(...xs)] and [Math.max(...xs)] *)
Definition math_min (xs : list sample) : jsnum :=
  fold_left (λ acc x,
    match acc with
    | Finite a => if Qle_bool a (sample_value x) then Finite a else Finite (sample_value x)
    | PosInfinity => Finite (sample_value x)
    | NegInfinity => NegInfinity
    end) xs PosInfinity.

Definition math_max (xs : list sample) : jsnum :=
  fold_left (λ acc x,
    match acc with
    | Finite a => if Qle_bool (sample_value x) a then Finite a else Finite (sample_value x)
    | NegInfinity => Finite (sample_value x)
    | PosInfinity => PosInfinity
    end) xs NegInfinity.

(** An object of the [weather_cache] store.  The three series are [None]
    when the object lacks the property. *)
Record weather_record := {
  wr_key : string;
  wr_dateKey : string;
  wr_lat : Z;
  wr_lon : Z;
  hours : option (list Z);
  temps : option (list sample);
  hums : option (list sample);
  minTemp : jsnum;
  maxTemp : jsnum;
  minHum : jsnum;
  maxHum : jsnum;
  fetchedAt : Z;
}.

(** The result [{ temp, hum }] of a lookup. *)
Record reading := {
  temp : Q;
  hum : Q;
}.

(** The decoded body of the weather API's answer: [json.hourly] with its
    three arrays, each possibly missing.  A [time] entry stands for the
    value of [+new Date(t)]. *)
Record hourly_data := {
  time : option (list Z);
  temperature_2m : option (list sample);
  relative_humidity_2m : option (list sample);
}.

Record response := {
  ok : bool;
  body : option (option hourly_data);   (* [None]: the body is not JSON *)
}.

(** ** The world: stores and platform *)

(** What the platform answers during one operation. *)
Record platform := {
  geolocation : option (Z * Z);        (* [getLatLon()], [None] for [null] *)
  fetch : string → option response;    (* [None]: the promise rejects *)
  now : Z;                             (* [Date.now()] *)
  uuid : nat → string;                 (* the successive values of [uuid()] *)
}.

Record world := {
  events : gmap string event;
  weather_cache : gmap string weather_record;
  requests : list string;              (* the URLs fetched so far, oldest first *)
}.

(** Computations that read and write the world and may throw. *)
Definition M (A : Type) : Type := world → (exn + A) * world.

Global Instance M_ret : MRet M := λ A x w, (inr x, w).
Global Instance M_bind : MBind M := λ A B f m w,
  match m w with
  | (inr x, w') => f x w'
  | (inl e, w') => (inl e, w')
  end.

Definition throw {A} (e : exn) : M A := λ w, (inl e, w).
Definition get_world : M world := λ w, (inr w, w).
Definition set_world (f : world → world) : M unit := λ w, (inr tt, f w).
(** [try { m } catch { h }]: the effects of [m] up to the exception stay. *)
Definition catch {A} (m h : M A) : M A := λ w,
  match m w with
  | (inr x, w') => (inr x, w')
  | (inl _, w') => h w'
  end.
(** A pure step that may throw. *)
Definition lift {A} (r : exn + A) : M A := λ w, (r, w).

Definition with_events (f : gmap string event → gmap string event) (w : world) : world :=
  {| events := f (events w); weather_cache := weather_cache w; requests := requests w |}.
Definition with_weather_cache
    (f : gmap string weather_record → gmap string weather_record) (w : world) : world :=
  {| events := events w; weather_cache := f (weather_cache w); requests := requests w |}.
Definition with_requests (f : list string → list string) (w : world) : world :=
  {| events := events w; weather_cache := weather_cache w; requests := f (requests w) |}.

(** ** Weather *)

(** The [for] loop of [nearestWeatherAtTs]: [rest] holds [hours[i..]]. *)
Fixpoint nearest_loop (ts : Z) (rest : list Z) (i bestIdx : nat) (bestDiff : Z) : nat :=
  match rest with
  | [] => bestIdx
  | h :: rest' =>
      let diff := Z.abs (h - ts) in
      if bool_decide (diff < bestDiff)
      then nearest_loop ts rest' (S i) i diff
      else nearest_loop ts rest' (S i) bestIdx bestDiff
  end.

(** [bestIdx] after the loop, for a non-empty [hours]. *)
Definition best_index (ts : Z) (h0 : Z) (rest : list Z) : nat :=
  nearest_loop ts rest 1 0 (Z.abs (h0 - ts)).

Definition nearestWeatherAtTs (record : option weather_record) (ts : Z)
    : exn + option reading :=
  match record with
  | None => inr None
  | Some r =>
      match hours r with
      | None | Some [] => inr None
      | Some (h0 :: rest) =>
          let bestIdx := best_index ts h0 rest in
          match temps r, hums r with
          | Some ts_, Some hs_ =>
              match ts_ !! bestIdx, hs_ !! bestIdx with
              | Some (Some t), Some (Some h) => inr (Some {| temp := t; hum := h |})
              | _, _ => inr None
              end
          | _, _ => inl TypeError
          end
      end
  end.

Global Arguments nearestWeatherAtTs : simpl never.

Section Operations.

Context (P : platform).

Definition getLatLon : M (option (Z * Z)) := mret (geolocation P).

(** [cached.hours && cached.temps && cached.hums] on a record that was
    found: each property is tested for truthiness, and an array is truthy
    whatever its length. *)
Definition has_series (c : weather_record) : bool :=
  bool_decide (is_Some (hours c)) && bool_decide (is_Some (temps c))
  && bool_decide (is_Some (hums c)).

(** The part of [getDailyWeatherArrays] after the cache test. *)
Definition fetchDay (dateKey key : string) (lat lon : Z) : M weather_record :=
  let url := weather_url dateKey lat lon in
  _ ← set_world (with_requests (λ l, l ++ [url]));
  match fetch P url with
  | None => throw NetworkError
  | Some resp =>
      if negb (ok resp) then throw FetchFailed
      else
        match body resp with
        | None => throw SyntaxError
        | Some hourly =>
            let hours_ := from_option id [] (hourly ≫= time) in
            let temps_ := from_option id [] (hourly ≫= temperature_2m) in
            let hums_ := from_option id [] (hourly ≫= relative_humidity_2m) in
            let rec :=
              {| wr_key := key; wr_dateKey := dateKey; wr_lat := lat; wr_lon := lon;
                 hours := Some hours_; temps := Some temps_; hums := Some hums_;
                 minTemp := math_min temps_; maxTemp := math_max temps_;
                 minHum := math_min hums_; maxHum := math_max hums_;
                 fetchedAt := now P |} in
            _ ← set_world (with_weather_cache (<[key := rec]>));
            mret rec
        end
  end.

(** [date] is the time value of the [Date] passed in. *)
Definition getDailyWeatherArrays (date : Z) (lat lon : Z) : M weather_record :=
  dateKey ← lift (ymd date);
  let key := cache_key dateKey lat lon in
  w ← get_world;
  match weather_cache w !! key with
  | Some cached =>
      if has_series cached then mret cached
      else fetchDay dateKey key lat lon
  | None => fetchDay dateKey key lat lon
  end.

Definition weatherForEventTs (ts : Z) : M (option event_weather) :=
  loc ← getLatLon;
  match loc with
  | None => mret None
  | Some (lat, lon) =>
      rec ← getDailyWeatherArrays ts lat lon;
      hit ← lift (nearestWeatherAtTs (Some rec) ts);
      match hit with
      | None => mret None
      | Some r => mret (Some {| w_temp := temp r; w_hum := hum r;
                                w_lat := wr_lat rec; w_lon := wr_lon rec |})
      end
  end.

(** ** Event writes *)

Definition with_weather (ev : event) (w : option event_weather) : event :=
  {| ev_id := ev_id ev; ev_type := ev_type ev; ev_ts := ev_ts ev;
     ev_dateKey := ev_dateKey ev; ev_subtype := ev_subtype ev;
     ev_amount := ev_amount ev; ev_note := ev_note ev; ev_level := ev_level ev;
     ev_duration := ev_duration ev; ev_weather := w |}.

(** [ev.type === 'sleep_start' || ev.type === 'sleep_end' || ev.type === 'wake'] *)
Definition wants_weather (t : event_type) : bool :=
  match t with
  | sleep_start | sleep_end | wake => true
  | _ => false
  end.

(** [try { const w = await weatherForEventTs(ev.ts); if (w) ev.weather = w; } catch {}]
    under its guard; the result is [ev] after the possible assignment. *)
Definition attachWeather (ev : event) : M event :=
  if wants_weather (ev_type ev) then
    catch (w ← weatherForEventTs (ev_ts ev);
           mret (match w with
                 | Some r => with_weather ev (Some r)
                 | None => ev
                 end))
          (mret ev)
  else mret ev.

(** [dbase.put('events', rec)]: the key path is [id]; a record without it
    is refused. *)
Definition put_event (rec : event) : M unit :=
  match ev_id rec with
  | Some k => set_world (with_events (<[k := rec]>))
  | None => throw DataError
  end.

(** [{ id: uuid(), dateKey, ...ev }]: the properties of [ev] come last
    and replace the two computed ones when [ev] has them. *)
Definition added_record (fresh_id dateKey : string) (ev : event) : event :=
  {| ev_id := Some (from_option id fresh_id (ev_id ev));
     ev_type := ev_type ev; ev_ts := ev_ts ev;
     ev_dateKey := Some (from_option id dateKey (ev_dateKey ev));
     ev_subtype := ev_subtype ev; ev_amount := ev_amount ev; ev_note := ev_note ev;
     ev_level := ev_level ev; ev_duration := ev_duration ev;
     ev_weather := ev_weather ev |}.

(** [{ ...ev, dateKey }]: the computed [dateKey] comes last. *)
Definition updated_record (dateKey : string) (ev : event) : event :=
  {| ev_id := ev_id ev; ev_type := ev_type ev; ev_ts := ev_ts ev;
     ev_dateKey := Some dateKey;
     ev_subtype := ev_subtype ev; ev_amount := ev_amount ev; ev_note := ev_note ev;
     ev_level := ev_level ev; ev_duration := ev_duration ev;
     ev_weather := ev_weather ev |}.

(** [addEvent] up to and including its [put] (the lookup, the day and the
    write).  The final [renderCycle()] needs the page state; [addEvent]
    itself is defined with it below. *)
Definition addEvent_write (ev : event) : M unit :=
  ev' ← attachWeather ev;
  dateKey ← lift (ymd (ev_ts ev'));
  put_event (added_record (uuid P 0%nat) dateKey ev').

Definition updateEvent (ev : event) : M unit :=
  ev' ← attachWeather ev;
  dateKey ← lift (ymd (ev_ts ev'));
  put_event (updated_record dateKey ev').

Definition deleteEvent (i : string) : M unit :=
  set_world (with_events (delete i)).

(** ** Queries *)

(** The order of the [by_ts] index: by [ts], then by primary key. *)
Definition by_ts (a b : string * event) : Prop :=
  ev_ts a.2 < ev_ts b.2 ∨ (ev_ts a.2 = ev_ts b.2 ∧ (a.1 ≤ b.1)%string).

Global Instance by_ts_dec : RelDecision by_ts.
Proof. intros a b. unfold by_ts. apply _. Defined.

(** The values that [idx.iterate(range)] yields, in order.  The following
    [out.sort((a,b) => a.ts - b.ts)] is stable and finds them ordered. *)
Definition iterate_by_ts (store : gmap string event) (in_range : Z → bool) : list event :=
  (merge_sort by_ts
     (filter (λ kv : string * event, in_range (ev_ts kv.2) = true) (map_to_list store))).*2.

Definition getAllEvents : M (list event) :=
  w ← get_world;
  mret (iterate_by_ts (events w) (λ _, true)).

(** [IDBKeyRange.bound(startTs, endTs)] refuses a lower bound above the
    upper one; both bounds are included. *)
Definition eventsBetween (startTs endTs : Z) : M (list event) :=
  if bool_decide (endTs < startTs) then throw DataError
  else
    w ← get_world;
    mret (iterate_by_ts (events w)
            (λ t, bool_decide (startTs ≤ t) && bool_decide (t ≤ endTs))).

(** ** Statistics *)

Definition digit_value (radix : Z) (a : ascii) : option Z :=
  let n := Z.of_nat (nat_of_ascii a) in
  let v := if bool_decide (48 ≤ n ≤ 57) then Some (n - 48)
           else if bool_decide (97 ≤ n ≤ 122) then Some (n - 87)
           else if bool_decide (65 ≤ n ≤ 90) then Some (n - 55)
           else None in
  d ← v; if bool_decide (d < radix) then Some d else None.

Fixpoint parse_digits (radix : Z) (s : string) (acc : option Z) : option Z :=
  match s with
  | String a s' =>
      match digit_value radix a with
      | Some d => parse_digits radix s' (Some (from_option id 0 acc * radix + d))
      | None => acc
      end
  | EmptyString => acc
  end.

Fixpoint skip_space (s : string) : string :=
  match s with
  | String a s' => if Ascii.is_space a then skip_space s' else s
  | EmptyString => s
  end.

(** [parseInt(s)] with no radix: leading (ASCII) white space, a sign, an
    optional [0x], then the longest run of digits; [None] is [NaN]. *)
Definition parseInt (s : string) : option Z :=
  let s1 := skip_space s in
  let '(neg, s2) :=
    match s1 with
    | String "-" r => (true, r)
    | String "+" r => (false, r)
    | _ => (false, s1)
    end in
  let '(radix, s3) :=
    match s2 with
    | String "0" (String "x" r) | String "0" (String "X" r) => (16, r)
    | _ => (10, s2)
    end in
  (λ v, if neg : bool then - v else v) <$> parse_digits radix s3 None.

(** Truthiness of an optional string property. *)
Definition truthy (s : option string) : bool :=
  match s with
  | Some (String _ _) => true
  | _ => false
  end.

Definition has_type (t : event_type) (e : event) : bool := bool_decide (ev_type e = t).

(** The object that [calcCycleStats] returns; [None] is [undefined], and
    for [solDuration] it is [NaN].  The properties [urinate], [wake] and
    [events] are the fields [urinate_count], [wake_count] and
    [stat_events]. *)
Record stats := {
  waterMl : Z;
  urinate_count : nat;
  wake_count : option nat;
  foodCnt : option nat;
  exercised : option bool;
  glicemiaCount : nat;
  glicemiaLevels : list string;
  solCount : nat;
  solDuration : option Z;
  stat_events : list event;
}.

Definition count_type (t : event_type) (evs : list event) : nat :=
  length (List.filter (has_type t) evs).

Definition stats_of (c : cycle) (evs : list event) : stats :=
  let wake_ := count_type wake evs in
  let foodCnt_ := count_type food evs in
  let exercised_ := existsb (has_type exercise) evs in
  {| waterMl :=
       fold_left (λ s e, s + from_option id 0 (ev_amount e))
         (List.filter (λ e, has_type water e && bool_decide (is_Some (ev_amount e))) evs) 0;
     urinate_count := count_type urinate evs;
     wake_count := if bool_decide (c_type c = NIGHT) then Some wake_ else None;
     foodCnt := if bool_decide (c_type c = DAY) then Some foodCnt_ else None;
     exercised := if bool_decide (c_type c = DAY) then Some exercised_ else None;
     glicemiaCount := count_type glicemia evs;
     glicemiaLevels :=
       omap ev_level (List.filter (λ e, has_type glicemia e && truthy (ev_level e)) evs);
     solCount := count_type sol evs;
     solDuration :=
       fold_left (λ s e, a ← s; d ← ev_duration e ≫= parseInt; Some (a + d))
         (List.filter (λ e, has_type sol e && truthy (ev_duration e)) evs) (Some 0);
     stat_events := evs |}.

(** [cycle.startTs] is the lower bound of the key range, and [null] is
    not a key. *)
Definition calcCycleStats (c : cycle) : M stats :=
  let endTs_ := from_option id (now P) (endTs c) in
  evs ← match startTs c with
        | Some s => eventsBetween s endTs_
        | None => throw DataError
        end;
  mret (stats_of c evs).

End Operations.

(** ** Specification predicates *)

(** Every cycle but the last ends, with a timestamp, where the next one
    starts. *)
Definition contiguous (cs : list cycle) : Prop :=
  ∀ (i : nat) (c1 c2 : cycle),
    cs !! i = Some c1 → cs !! S i = Some c2 →
    is_Some (endTs c1) ∧ endTs c1 = startTs c2.

(** The last cycle, and no other, is open. *)
Definition only_last_open (cs : list cycle) : Prop :=
  cs ≠ [] ∧
  ∀ (i : nat) (c : cycle), cs !! i = Some c → (endTs c = None ↔ S i = length cs).

(** No [sleep_end] comes after another [sleep_end] without a [sleep_start]
    in between; [after_end] tells whether the last boundary event seen so
    far was a [sleep_end]. *)
Fixpoint no_repeated_sleep_end_from (after_end : bool) (l : list event) : bool :=
  match l with
  | [] => true
  | e :: l' =>
      match ev_type e with
      | sleep_start => no_repeated_sleep_end_from false l'
      | sleep_end => negb after_end && no_repeated_sleep_end_from true l'
      | _ => no_repeated_sleep_end_from after_end l'
      end
  end.

Definition no_repeated_sleep_end (l : list event) : bool :=
  no_repeated_sleep_end_from false l.

(** The start of the first cycle of [cs], or [s] when there is none. *)
Definition hd_start (cs : list cycle) (s : option Z) : option Z :=
  match cs with
  | [] => s
  | c :: _ => startTs c
  end.

(** [cs] is a chain of closed cycles whose last one ends at [s]. *)
Fixpoint linked (cs : list cycle) (s : option Z) : Prop :=
  match cs with
  | [] => True
  | c :: cs' => is_Some (endTs c) ∧ endTs c = hd_start cs' s ∧ linked cs' s
  end.

(** [k] is the lowest index of [hs] at which the distance to [ts] is
    least: no entry is closer, and every earlier entry is farther. *)
Definition is_nearest (hs : list Z) (ts : Z) (k : nat) : Prop :=
  ∃ hk, hs !! k = Some hk ∧
    (∀ (j : nat) (hj : Z), hs !! j = Some hj → Z.abs (hk - ts) ≤ Z.abs (hj - ts)) ∧
    (∀ (j : nat) (hj : Z), hs !! j = Some hj → (j < k)%nat → Z.abs (hk - ts) < Z.abs (hj - ts)).

(** The entry of a series at index [k] when it is a number. *)
Definition number_at (xs : list sample) (k : nat) : option Q := xs !! k ≫= id.

(** ** Sample logs *)

(** A wake-up, a night, and then two wake-ups in a row. *)
Definition repeated_end_log : list event :=
  [ plain_event "a" sleep_end 1; plain_event "b" sleep_start 2;
    plain_event "c" sleep_end 3; plain_event "d" sleep_end 4 ].

(** A night, a day and the start of the next night. *)
Definition night_day_night_log : list event :=
  [ plain_event "a" sleep_start 1; plain_event "b" sleep_end 2;
    plain_event "c" sleep_start 3 ].

(** Two bedtimes with no wake-up in between. *)
Definition restarted_sleep_log : list event :=
  [ plain_event "a" sleep_start 1; plain_event "b" sleep_start 2 ].

Definition const_uuid (k : nat) : string := "00000000-0000-4000-8000-000000000000".

(** No position, no network. *)
Definition offline : platform :=
  {| geolocation := None; fetch := λ _, None; now := 0; uuid := const_uuid |}.

(** A position at latitude and longitude 0, and a weather service that
    answers with a success status and a body without [hourly]. *)
Definition no_data : platform :=
  {| geolocation := Some (0, 0);
     fetch := λ _, Some {| ok := true; body := Some None |};
     now := 0; uuid := const_uuid |}.

Definition empty_world : world :=
  {| events := ∅; weather_cache := ∅; requests := [] |}.

(** The record that [getDailyWeatherArrays] builds from an answer
    without [hourly]. *)
Definition empty_day : weather_record :=
  {| wr_key := "1970-01-01:0:0"; wr_dateKey := "1970-01-01"; wr_lat := 0; wr_lon := 0;
     hours := Some []; temps := Some []; hums := Some [];
     minTemp := PosInfinity; maxTemp := NegInfinity;
     minHum := PosInfinity; maxHum := NegInfinity;
     fetchedAt := 0 |}.

(** The world after one call of [getDailyWeatherArrays] for 1970-01-01
    against [no_data]. *)
Definition world_after_no_data : world :=
  (getDailyWeatherArrays no_data 0 0 0 empty_world).2.

(** A bedtime that already carries a reading. *)
Definition bedtime_with_weather : event :=
  with_weather (plain_event "a" sleep_start 0)
    (Some {| w_temp := 20; w_hum := 50; w_lat := 0; w_lon := 0 |}).

(** A glass of water at the epoch that claims another day. *)
Definition water_with_dateKey : event :=
  {| ev_id := None; ev_type := water; ev_ts := 0; ev_dateKey := Some "2000-01-01";
     ev_subtype := Some "510ml"; ev_amount := Some 510; ev_note := None;
     ev_level := None; ev_duration := None; ev_weather := None |}.

(** A store with a bedtime, a night awakening and a workout. *)
Definition night_world : world :=
  {| events := <["a" := plain_event "a" sleep_start 1]>
                 (<["b" := plain_event "b" wake 2]>
                    (<["c" := plain_event "c" exercise 3]> ∅));
     weather_cache := ∅; requests := [] |}.

(** The events of [night_world] in the order of their timestamps. *)
Definition night_world_log : list event :=
  [ plain_event "a" sleep_start 1; plain_event "b" wake 2; plain_event "c" exercise 3 ].

Definition closed_night : cycle :=
  {| c_id := const_uuid 0; c_type := NIGHT; startTs := Some 1; endTs := Some 5;
     startEvent := Some (plain_event "a" sleep_start 1); endEvent := None |}.

(** [e] is a stored event whose [ts] lies in the span from [lo] to [hi]. *)
Definition in_span (store : gmap string event) (lo hi : Z) (e : event) : Prop :=
  ∃ k, store !! k = Some e ∧ lo ≤ ev_ts e ≤ hi.

(** The stored events of the span, one entry per record, in the order of
    the map. *)
Definition stored_in_span (store : gmap string event) (lo hi : Z) : list event :=
  (filter (λ kv : string * event, lo ≤ ev_ts kv.2 ≤ hi) (map_to_list store)).*2.

(** Three hourly samples from midnight of 1970-01-01 at latitude and
    longitude 0; the humidity of the second hour is missing. *)
Definition three_hours : weather_record :=
  {| wr_key := "1970-01-01:0:0"; wr_dateKey := "1970-01-01"; wr_lat := 0; wr_lon := 0;
     hours := Some [0; 3600000; 7200000];
     temps := Some [Some 20%Q; Some 21%Q; Some 22%Q];
     hums := Some [Some 50%Q; None; Some 52%Q];
     minTemp := Finite 20; maxTemp := Finite 22;
     minHum := Finite 0; maxHum := Finite 52;
     fetchedAt := 0 |}.

(** ** Further predicates *)

(** The events that the scan reacts to. *)
Definition is_boundary (e : event) : bool :=
  match ev_type e with
  | sleep_start | sleep_end => true
  | _ => false
  end.

(** The type of the last boundary event of a log, if it has one. *)
Definition last_boundary_type (l : list event) : option event_type :=
  ev_type <$> last (List.filter is_boundary l).

(** The boundary event that opens a cycle of the given type. *)
Definition opening_type (t : phase) : event_type :=
  match t with
  | NIGHT => sleep_start
  | DAY => sleep_end
  end.

(** The boundary event that closes a cycle of the given type. *)
Definition closing_type (t : phase) : event_type :=
  match t with
  | NIGHT => sleep_end
  | DAY => sleep_start
  end.

(** A closed cycle does not end before it starts. *)
Definition forward (c : cycle) : Prop :=
  ∀ s e, startTs c = Some s → endTs c = Some e → s ≤ e.

(** The boundary references of a cycle agree with its timestamps and its
    type. *)
Definition refs_agree (c : cycle) : Prop :=
  (∀ e, startEvent c = Some e →
        startTs c = Some (ev_ts e) ∧ ev_type e = opening_type (c_type c)) ∧
  (∀ e, endEvent c = Some e →
        endTs c = Some (ev_ts e) ∧ ev_type e = closing_type (c_type c)).

(** After a DAY cycle was pushed the scan is in phase NIGHT. *)
Definition night_after_day (st : Builder.locals) : Prop :=
  ∀ c, last (Builder.cycles st) = Some c → c_type c = DAY → Builder.cur_phase st = NIGHT.

Definition no_two_days (cs : list cycle) : Prop :=
  ∀ (i : nat) (c1 c2 : cycle),
    cs !! i = Some c1 → cs !! S i = Some c2 → c_type c1 = DAY → c_type c2 = NIGHT.

(** The start reference of the scan agrees with its start timestamp and
    its phase. *)
Definition ref_agrees (st : Builder.locals) : Prop :=
  ∀ e, Builder.startEventRef st = Some e →
       Builder.cur_startTs st = Some (ev_ts e) ∧
       ev_type e = opening_type (Builder.cur_phase st).

(** ** More of the event store *)

(** Every record is stored under its own id. *)
Definition keyed (store : gmap string event) : Prop :=
  ∀ k e, store !! k = Some e → ev_id e = Some k.

(** [hasRecentWakeEvent(withinMinutes)]: the cursor loop returns at the
    first [wake] event of the range. *)
Definition hasRecentWakeEvent (P : platform) (withinMinutes : Z) : M bool :=
  let currentTime := now P in
  let cutoffTime := currentTime - withinMinutes * 60 * 1000 in
  if bool_decide (currentTime < cutoffTime) then throw DataError
  else
    w ← get_world;
    mret (existsb (has_type wake)
            (iterate_by_ts (events w)
               (λ t, bool_decide (cutoffTime ≤ t) && bool_decide (t ≤ currentTime)))).

(** A position at latitude and longitude 0 and no network. *)
Definition located : platform :=
  {| geolocation := Some (0, 0); fetch := λ _, None; now := 0; uuid := const_uuid |}.

(** A world whose cache holds [three_hours] for 1970-01-01 at (0, 0). *)
Definition cached_world : world :=
  {| events := ∅; weather_cache := {[ "1970-01-01:0:0" := three_hours ]}; requests := [] |}.

(** A bedtime without id, as the button handler builds it. *)
Definition new_bedtime : event :=
  {| ev_id := None; ev_type := sleep_start; ev_ts := 0; ev_dateKey := None;
     ev_subtype := None; ev_amount := None; ev_note := None;
     ev_level := None; ev_duration := None; ev_weather := None |}.

(** An open cycle that starts after [now offline]. *)
Definition future_night : cycle :=
  {| c_id := const_uuid 0; c_type := NIGHT; startTs := Some 10; endTs := None;
     startEvent := Some (plain_event "a" sleep_start 10); endEvent := None |}.

(** ** The page state and its handlers *)

(** An object of the [settings] store: its key, when it has one, and the
    rest of it as text.  Nothing but the import writes to this store. *)
Record setting := {
  setting_key : option string;
  setting_rest : string;
}.

(** The stores together with the module-level [state]. *)
Record app := {
  app_world : world;
  app_settings : gmap string setting;
  currentCycleIdx : Z;
  state_cycles : list cycle;
}.

(** Computations on the stores and the page state. *)
Definition App (A : Type) : Type := app → (exn + A) * app.

Definition app_ret {A} (x : A) : App A := λ a, (inr x, a).
Definition app_bind {A B} (m : App A) (f : A → App B) : App B := λ a,
  match m a with
  | (inr x, a') => f x a'
  | (inl e, a') => (inl e, a')
  end.

(** A store operation run from the page. *)
Definition on_world {A} (m : M A) : App A := λ a,
  let r := m (app_world a) in
  (r.1, {| app_world := r.2; app_settings := app_settings a;
           currentCycleIdx := currentCycleIdx a; state_cycles := state_cycles a |}).

Definition set_cycles (cs : list cycle) : App unit := λ a,
  (inr tt, {| app_world := app_world a; app_settings := app_settings a;
              currentCycleIdx := currentCycleIdx a; state_cycles := cs |}).

Definition set_index (f : app → Z) : App unit := λ a,
  (inr tt, {| app_world := app_world a; app_settings := app_settings a;
              currentCycleIdx := f a; state_cycles := state_cycles a |}).

Definition refreshCycles (P : platform) : App (list cycle) :=
  app_bind (on_world getAllEvents) (λ all,
  let cycles_ := buildCyclesFromEvents (now P) (uuid P) all in
  app_bind (set_cycles cycles_) (λ _,
  app_ret cycles_)).

(** Truthiness of a timestamp that may be [null]. *)
Definition truthy_ts (t : option Z) : bool :=
  match t with
  | Some z => negb (bool_decide (z = 0))
  | None => false
  end.

(** [cycles[cycles.length - 1]] is the last cycle; in the two comparisons
    a [null] timestamp counts as 0. *)
Definition isCurrentlyInNightCycle (P : platform) : App bool :=
  app_bind (refreshCycles P) (λ cycles_,
  match last cycles_ with
  | None => app_ret false
  | Some currentCycle =>
      let currentTime := now P in
      if bool_decide (c_type currentCycle = NIGHT) then
        if negb (truthy_ts (endTs currentCycle)) then app_ret true
        else if bool_decide (from_option id 0 (startTs currentCycle) ≤ currentTime)
                && bool_decide (currentTime ≤ from_option id 0 (endTs currentCycle))
        then app_ret true
        else app_ret false
      else app_ret false
  end).

(** The two [if]s of step 2 of [renderCycle]. *)
Definition clamp_index (idx : Z) (len : nat) : Z :=
  let idx1 := if bool_decide (idx < 0) then 0 else idx in
  if bool_decide (Z.of_nat len ≤ idx1) then Z.of_nat len - 1 else idx1.

(** [renderCycle] up to the statistics of the selected cycle; what
    follows only draws them. *)
Definition renderCycle (P : platform) : App unit :=
  app_bind (refreshCycles P) (λ cycles_,
  match cycles_ with
  | [] => app_ret tt
  | _ :: _ =>
      app_bind (set_index (λ a, clamp_index (currentCycleIdx a) (length cycles_))) (λ _,
      λ a,
        match cycles_ !! Z.to_nat (currentCycleIdx a) with
        | Some cycle_ => app_bind (on_world (calcCycleStats P cycle_)) (λ _, app_ret tt) a
        | None => (inl TypeError, a)
        end)
  end).

(** The object literal [{ type, ts }]. *)
Definition new_event (t : event_type) (ts : Z) : event :=
  {| ev_id := None; ev_type := t; ev_ts := ts; ev_dateKey := None;
     ev_subtype := None; ev_amount := None; ev_note := None;
     ev_level := None; ev_duration := None; ev_weather := None |}.

(** The page with its stores replaced by [w]. *)
Definition with_world (a : app) (w : world) : app :=
  {| app_world := w; app_settings := app_settings a;
     currentCycleIdx := currentCycleIdx a; state_cycles := state_cycles a |}.

(** [addEvent]: the lookup and the write of [addEvent_write], then the
    final [await renderCycle()].  [P] answers during the former, [P']
    during the redraw. *)
Definition addEvent (P P' : platform) (ev : event) : App unit :=
  app_bind (on_world (addEvent_write P ev)) (λ _, renderCycle P').

(** The handlers of the two sleep buttons.  [P] answers during the test,
    [P'] during the write and [P''] during the redraw that ends
    [addEvent]; the result tells whether an event was written ([false]
    after the [alert]). *)
Definition startHandler (P P' P'' : platform) : App bool :=
  app_bind (isCurrentlyInNightCycle P) (λ isNight,
  if isNight then app_ret false
  else
    let ts := now P' in
    app_bind (addEvent P' P'' (new_event sleep_start ts)) (λ _,
    app_ret true)).

Definition endHandler (P P' P'' : platform) : App bool :=
  app_bind (isCurrentlyInNightCycle P) (λ isNight,
  if negb isNight then app_ret false
  else
    let ts := now P' in
    app_bind (addEvent P' P'' (new_event sleep_end ts)) (λ _,
    app_ret true)).

(** The three navigation buttons. *)
Definition btnToday (P P' : platform) : App unit :=
  app_bind (refreshCycles P) (λ _,
  app_bind (set_index (λ a, Z.max 0 (Z.of_nat (length (state_cycles a)) - 1))) (λ _,
  renderCycle P')).

Definition btnPrev (P : platform) : App unit :=
  app_bind (set_index (λ a, Z.max 0 (currentCycleIdx a - 1))) (λ _,
  renderCycle P).

Definition btnNext (P : platform) : App unit :=
  app_bind (set_index (λ a, Z.min (Z.of_nat (length (state_cycles a)) - 1)
                                  (currentCycleIdx a + 1))) (λ _,
  renderCycle P).

(** The log of a world as [getAllEvents] orders it. *)
Definition stored_log (w : world) : list event := iterate_by_ts (events w) (λ _, true).

(** The page over [night_world] before its first redraw. *)
Definition night_app : app :=
  {| app_world := night_world; app_settings := ∅;
     currentCycleIdx := 0; state_cycles := [] |}.

(** The page over a store in which the night of [night_world] has ended. *)
Definition morning_app : app :=
  {| app_world := with_events (<["d" := plain_event "d" sleep_end 4]>) night_world;
     app_settings := ∅; currentCycleIdx := 0; state_cycles := [] |}.

(** A page with nothing stored. *)
Definition blank_app : app :=
  {| app_world := empty_world; app_settings := ∅;
     currentCycleIdx := 0; state_cycles := [] |}.

(** ** Export and import *)

(** The order of primary keys. *)
Definition by_key {A} (a b : string * A) : Prop := (a.1 ≤ b.1)%string.

Global Instance by_key_dec {A} : RelDecision (@by_key A).
Proof. intros a b. unfold by_key. apply _. Defined.

(** [store.getAll()]: the objects of a store in the order of their keys. *)
Definition getAll {A} (store : gmap string A) : list A :=
  (merge_sort by_key (map_to_list store)).*2.

(** The object [all] of [exportJSON] and the object [data] of
    [importJSON]; a property is [None] when it is not an array. *)
Record snapshot := {
  snap_events : option (list event);
  snap_settings : option (list setting);
  snap_weather_cache : option (list weather_record);
}.

(** [exportJSON] up to the object that it serialises and offers for
    download. *)
Definition exportJSON : App snapshot := λ a,
  (inr {| snap_events := Some (getAll (events (app_world a)));
          snap_settings := Some (getAll (app_settings a));
          snap_weather_cache := Some (getAll (weather_cache (app_world a))) |}, a).

(** [for (const x of xs) await store.put(x)] *)
Fixpoint put_each {A} (put : A → App unit) (xs : list A) : App unit :=
  match xs with
  | [] => app_ret tt
  | x :: xs' => app_bind (put x) (λ _, put_each put xs')
  end.

(** The key path of the [settings] store is [key]. *)
Definition put_setting (x : setting) : App unit := λ a,
  match setting_key x with
  | Some k => (inr tt, {| app_world := app_world a;
                          app_settings := <[k := x]> (app_settings a);
                          currentCycleIdx := currentCycleIdx a;
                          state_cycles := state_cycles a |})
  | None => (inl DataError, a)
  end.

(** The key path of the [weather_cache] store is [key]. *)
Definition put_weather (x : weather_record) : App unit :=
  on_world (set_world (with_weather_cache (<[wr_key x := x]>))).

(** [importJSON]; [data] is the value of [JSON.parse(text)], [None] when
    the text is not JSON. *)
Definition importJSON (P : platform) (data : option snapshot) : App unit :=
  match data with
  | None => λ a, (inl SyntaxError, a)
  | Some d =>
      app_bind (put_each (λ e, on_world (put_event e)) (default [] (snap_events d))) (λ _,
      app_bind (put_each put_setting (default [] (snap_settings d))) (λ _,
      app_bind (put_each put_weather (default [] (snap_weather_cache d))) (λ _,
      renderCycle P)))
  end.

(** The locals of two scans agree but for the ids of the pushed cycles. *)
Definition same_shape (st st' : Builder.locals) : Prop :=
  length (Builder.cycles st) = length (Builder.cycles st') ∧
  Builder.cur_phase st = Builder.cur_phase st' ∧
  Builder.cur_startTs st = Builder.cur_startTs st'.

(** What a [put] into the [events] store does to the store. *)
Definition upsert (m : gmap string event) (e : event) : gmap string event :=
  match ev_id e with
  | Some k => <[k := e]> m
  | None => m
  end.

(** [lo] and [hi] are the least and the greatest value of the series
    [xs], a [null] entry counting as 0; for an empty series they are
    [Infinity] and [-Infinity]. *)
Definition extrema_of (lo hi : jsnum) (xs : list sample) : Prop :=
  match xs with
  | [] => lo = PosInfinity ∧ hi = NegInfinity
  | _ :: _ =>
      ∃ l h, lo = Finite l ∧ hi = Finite h ∧
             Forall (λ x, (l <= sample_value x)%Q ∧ (sample_value x <= h)%Q) xs ∧
             (∃ x, x ∈ xs ∧ l = sample_value x) ∧
             (∃ x, x ∈ xs ∧ h = sample_value x)
  end.

(** A service that answers with two hours, the second temperature being
    [null]. *)
Definition two_hours : platform :=
  {| geolocation := Some (0, 0);
     fetch := λ _, Some {| ok := true;
                           body := Some (Some {| time := Some [0; 3600000];
                                                 temperature_2m := Some [Some 5%Q; None];
                                                 relative_humidity_2m :=
                                                   Some [Some 40%Q; Some 60%Q] |}) |};
     now := 0; uuid := const_uuid |}.

(** ** The prompts of the quick buttons *)

(** [\d] *)
Definition is_digit (a : ascii) : bool :=
  bool_decide (48 ≤ Z.of_nat (nat_of_ascii a) ≤ 57).

(** [s.replace(/[^\d]/g, '')] *)
Fixpoint only_digits (s : string) : string :=
  match s with
  | String a s' => if is_digit a then String a (only_digits s') else only_digits s'
  | EmptyString => EmptyString
  end.

(** [s.trim()], for ASCII white space. *)
Definition trim (s : string) : string :=
  String.rev (skip_space (String.rev (skip_space s))).

(** [x && x.trim()] for the answer [x] of a [prompt], [None] when the
    prompt was cancelled. *)
Definition answered (x : option string) : bool :=
  match x with
  | Some s => negb (bool_decide (s = "")) && negb (bool_decide (trim s = ""))
  | None => false
  end.

Fixpoint all_digits (s : string) : bool :=
  match s with
  | String a s' => is_digit a && all_digits s'
  | EmptyString => true
  end.

(** The branch [action === 'glicemia'] of the quick-button handler up to
    its [addEvent]: the event that is added, or [None] when the answer is
    dropped or refused with an [alert]. *)
Definition glicemiaEvent (level : option string) (ts : Z) : option event :=
  match level with
  | Some s =>
      if answered level then
        let cleanLevel := only_digits (trim s) in
        if negb (bool_decide (cleanLevel = ""))
           && bool_decide (2 ≤ String.length cleanLevel)%nat
           && bool_decide (String.length cleanLevel ≤ 3)%nat
        then Some {| ev_id := None; ev_type := glicemia; ev_ts := ts; ev_dateKey := None;
                     ev_subtype := None; ev_amount := None; ev_note := None;
                     ev_level := Some cleanLevel; ev_duration := None;
                     ev_weather := None |}
        else None
      else None
  | None => None
  end.

(** [parseInt(x) >= n]; [NaN] compares false. *)
Definition parsed_at_least (x : string) (n : Z) : bool :=
  match parseInt x with
  | Some v => bool_decide (n ≤ v)
  | None => false
  end.

(** The branch [action === 'sol']. *)
Definition solEvent (duration : option string) (ts : Z) : option event :=
  match duration with
  | Some s =>
      if answered duration then
        let cleanDuration := only_digits (trim s) in
        if negb (bool_decide (cleanDuration = "")) && parsed_at_least cleanDuration 10
        then Some {| ev_id := None; ev_type := sol; ev_ts := ts; ev_dateKey := None;
                     ev_subtype := None; ev_amount := None; ev_note := None;
                     ev_level := None; ev_duration := Some cleanDuration;
                     ev_weather := None |}
        else None
      else None
  | None => None
  end.

(** The branch [action === 'isotonic']. *)
Definition isotonicEvent (amount : option string) (ts : Z) : option event :=
  match amount with
  | Some s =>
      if answered amount then
        let cleanAmount := only_digits (trim s) in
        if negb (bool_decide (cleanAmount = "")) && parsed_at_least cleanAmount 100
        then Some {| ev_id := None; ev_type := isotonic; ev_ts := ts; ev_dateKey := None;
                     ev_subtype := None; ev_amount := parseInt cleanAmount;
                     ev_note := None; ev_level := None; ev_duration := None;
                     ev_weather := None |}
        else None
      else None
  | None => None
  end.


(** No position, no network, and a clock at 50 ms. *)
Definition at_fifty : platform :=
  {| geolocation := None; fetch := λ _, None; now := 50; uuid := const_uuid |}.

(** A page whose store holds one wake-up, logged for a time after 50 ms. *)
Definition late_wakeup_app : app :=
  {| app_world := {| events := {[ "e" := plain_event "e" sleep_end 100 ]};
                     weather_cache := ∅; requests := [] |};
     app_settings := ∅; currentCycleIdx := 0; state_cycles := [] |}.

(** A page whose store holds one event with the day of its [ts]. *)
Definition dated_app : app :=
  {| app_world :=
       {| events := {[ "w" := updated_record "1970-01-01" (plain_event "w" water 5) ]};
          weather_cache := ∅; requests := [] |};
     app_settings := ∅; currentCycleIdx := 0; state_cycles := [] |}.

(** * Properties *)

(** ** Cycle builder *)

Section BuilderFacts.

Context (uuid_ : nat → string).

Lemma linked_snoc (cs : list cycle) (c : cycle) (s : option Z) :
  linked cs (startTs c) → is_Some (endTs c) → endTs c = s → linked (cs ++ [c]) s.
Proof.
  induction cs as [|a cs IH]; simpl.
  - intros _ Hc Hs. by rewrite Hs in *.
  - intros (Ha & Hlink & Hrest) Hc Hs. split_and!; [done| |by apply IH].
    rewrite Hlink. by destruct cs.
Qed.

Lemma linked_contiguous (cs : list cycle) (c : cycle) :
  linked cs (startTs c) → contiguous (cs ++ [c]).
Proof.
  induction cs as [|a cs IH]; intros Hl i c1 c2 H1 H2.
  - by destruct i.
  - destruct Hl as (Ha & Hlink & Hrest). destruct i as [|i]; simpl in *.
    + simplify_eq. split; [done|]. rewrite Hlink.
      destruct cs; simpl in *; by simplify_eq.
    + by apply (IH Hrest i).
Qed.

Lemma closed_only_last_open (cs : list cycle) (c : cycle) :
  Forall (λ c', is_Some (endTs c')) cs → endTs c = None → only_last_open (cs ++ [c]).
Proof.
  intros Hcs Hc. split; [by destruct cs|].
  intros i c' Hi. rewrite length_app; simpl.
  destruct (decide (i < length cs)%nat) as [Hlt|Hge].
  - rewrite lookup_app_l in Hi by done.
    rewrite Forall_lookup in Hcs. destruct (Hcs _ _ Hi) as [z Hz].
    rewrite Hz. split; [done|lia].
  - apply lookup_lt_Some in Hi as Hlen. rewrite length_app in Hlen; simpl in Hlen.
    assert (i = length cs) as -> by lia.
    rewrite list_lookup_middle in Hi by done. simplify_eq. split; [lia|done].
Qed.

(** Every pushed cycle carries an end timestamp. *)
Lemma step_closed (st : Builder.locals) (e : event) :
  Forall (λ c, is_Some (endTs c)) (Builder.cycles st) →
  Forall (λ c, is_Some (endTs c)) (Builder.cycles (Builder.step uuid_ st e)).
Proof.
  intros H. unfold Builder.step, Builder.push.
  destruct (ev_type e), (Builder.cur_phase st); simpl; try done;
    try destruct (Builder.cur_startTs st); simpl; try done;
    apply Forall_app; split; try done; by repeat constructor.
Qed.

Lemma scan_closed (l : list event) (st : Builder.locals) :
  Forall (λ c, is_Some (endTs c)) (Builder.cycles st) →
  Forall (λ c, is_Some (endTs c)) (Builder.cycles (Builder.scan uuid_ st l)).
Proof.
  revert st. induction l as [|e l IH]; intros st H; simpl; [done|].
  apply IH. by apply step_closed.
Qed.

(** The scan keeps the chain as long as no [sleep_end] arrives in phase
    DAY after a cycle was pushed. *)
Lemma scan_linked (l : list event) (st : Builder.locals) (after_end : bool) :
  no_repeated_sleep_end_from after_end l = true →
  is_Some (Builder.cur_startTs st) →
  linked (Builder.cycles st) (Builder.cur_startTs st) →
  (Builder.cycles st = [] ∨ after_end = true ∨ Builder.cur_phase st = NIGHT) →
  linked (Builder.cycles (Builder.scan uuid_ st l))
         (Builder.cur_startTs (Builder.scan uuid_ st l)).
Proof.
  revert st after_end. induction l as [|e l IH]; intros st b Hno Hs Hl Hst; [done|].
  simpl in *. unfold Builder.step, Builder.push.
  destruct (ev_type e) eqn:Ht;
    try (by apply (IH st b); eauto).
  all: destruct Hs as [s Hs]; rewrite Hs in Hl |- *.
  - (* sleep_start *)
    destruct (Builder.cur_phase st) eqn:Hp;
      (apply (IH _ false); simpl; [done|by eauto| |by auto]);
      (apply linked_snoc; simpl; [done|by eauto|done]).
  - (* sleep_end *)
    apply andb_prop in Hno as [Hb Hno]. apply negb_true_iff in Hb. subst b.
    destruct (Builder.cur_phase st) eqn:Hp.
    + destruct Hst as [Hnil|[?|?]]; [|done..].
      apply (IH _ true); simpl; [done|by eauto| |by auto].
      by rewrite Hnil.
    + apply (IH _ true); simpl; [done|by eauto| |by auto].
      apply linked_snoc; simpl; [done|by eauto|done].
Qed.

Lemma seed_scan (now_ : Z) (l : list event) (st : Builder.locals) :
  Builder.seed now_ l = Builder.Scan st →
  Builder.cycles st = [] ∧ is_Some (Builder.cur_startTs st).
Proof.
  unfold Builder.seed. intros H.
  repeat case_match; simplify_eq; simpl; eauto.
Qed.

Lemma seed_return (now_ : Z) (l : list event) (cs : list cycle) :
  Builder.seed now_ l = Builder.Return cs → cs = [Builder.virtual_now now_].
Proof.
  unfold Builder.seed. intros H. repeat case_match; by simplify_eq.
Qed.

End BuilderFacts.

Lemma buildCycles_only_last_open (now_ : Z) (uuid_ : nat → string) (l : list event) :
  only_last_open (buildCyclesFromEvents now_ uuid_ l).
Proof.
  unfold buildCyclesFromEvents.
  destruct (Builder.seed now_ l) as [st|cs] eqn:Hseed.
  - apply seed_scan in Hseed as [Hnil _].
    apply closed_only_last_open; [|done].
    apply scan_closed. by rewrite Hnil.
  - apply seed_return in Hseed as ->.
    by apply (closed_only_last_open []).
Qed.

Lemma buildCycles_linked (now_ : Z) (uuid_ : nat → string) (l : list event) :
  no_repeated_sleep_end l = true →
  contiguous (buildCyclesFromEvents now_ uuid_ l).
Proof.
  intros Hno. unfold buildCyclesFromEvents.
  destruct (Builder.seed now_ l) as [st|cs] eqn:Hseed.
  - apply seed_scan in Hseed as [Hnil Hs].
    apply linked_contiguous; simpl.
    apply (scan_linked uuid_ l st false); [done..| |by left].
    by rewrite Hnil.
  - apply seed_return in Hseed as ->.
    intros [|i] c1 c2 H1 H2; simplify_eq/=.
Qed.

(** C1, as the code has it: for events ordered ascending by [ts] among
    which no [sleep_end] follows another [sleep_end] without a
    [sleep_start] in between, the cycles of [buildCyclesFromEvents] are
    contiguous (each cycle but the last ends, with a timestamp, where the
    next one starts) and the last cycle, and only the last, has
    [endTs = null]. *)
Theorem buildCycles_contiguous (now_ : Z) (uuid_ : nat → string) (sortedEvents : list event) :
  sorted_by_ts sortedEvents = true →
  no_repeated_sleep_end sortedEvents = true →
  contiguous (buildCyclesFromEvents now_ uuid_ sortedEvents) ∧
  only_last_open (buildCyclesFromEvents now_ uuid_ sortedEvents).
Proof.
  intros _ Hno. split.
  - by apply buildCycles_linked.
  - apply buildCycles_only_last_open.
Qed.

Lemma buildCycles_contiguous_witness :
  sorted_by_ts night_day_night_log = true ∧
  no_repeated_sleep_end night_day_night_log = true ∧
  contiguous (buildCyclesFromEvents 0 const_uuid night_day_night_log) ∧
  only_last_open (buildCyclesFromEvents 0 const_uuid night_day_night_log).
Proof.
  split; [reflexivity|]. split; [reflexivity|].
  apply (buildCycles_contiguous 0 const_uuid night_day_night_log); reflexivity.
Defined.

(** C1 as stated fails: on the ordered log [sleep_end@1, sleep_start@2,
    sleep_end@3, sleep_end@4] the NIGHT cycle ends at 3 and the cycle
    after it starts at 4. *)
Lemma buildCycles_gap_after_repeated_end :
  sorted_by_ts repeated_end_log = true ∧
  ¬ contiguous (buildCyclesFromEvents 0 const_uuid repeated_end_log).
Proof.
  split; [reflexivity|].
  intros H. destruct (H 1%nat _ _ eq_refl eq_refl) as [_ Heq].
  discriminate Heq.
Qed.

(** C2: on [sleep_start@T1, sleep_end@T2, sleep_start@T3] with
    [T1 < T2 < T3] the builder returns four cycles, not three: the scan
    meets the seeding [sleep_start] again and closes an empty NIGHT cycle
    from T1 to T1 before the three expected ones. *)
Theorem buildCycles_night_day_night (now_ : Z) (uuid_ : nat → string) (e1 e2 e3 : event) :
  ev_type e1 = sleep_start → ev_type e2 = sleep_end → ev_type e3 = sleep_start →
  ev_ts e1 < ev_ts e2 → ev_ts e2 < ev_ts e3 →
  buildCyclesFromEvents now_ uuid_ [e1; e2; e3] =
    [ {| c_id := uuid_ 0%nat; c_type := NIGHT;
         startTs := Some (ev_ts e1); endTs := Some (ev_ts e1);
         startEvent := Some e1; endEvent := None |};
      {| c_id := uuid_ 1%nat; c_type := NIGHT;
         startTs := Some (ev_ts e1); endTs := Some (ev_ts e2);
         startEvent := Some e1; endEvent := Some e2 |};
      {| c_id := uuid_ 2%nat; c_type := DAY;
         startTs := Some (ev_ts e2); endTs := Some (ev_ts e3);
         startEvent := Some e2; endEvent := Some e3 |};
      {| c_id := uuid_ 3%nat; c_type := NIGHT;
         startTs := Some (ev_ts e3); endTs := None;
         startEvent := Some e3; endEvent := None |} ].
Proof.
  intros H1 H2 H3 H12 H23.
  destruct e1, e2, e3; simpl in *; subst.
  unfold buildCyclesFromEvents, Builder.seed, Builder.find_type; simpl.
  by rewrite bool_decide_eq_true_2 by done.
Qed.

Lemma buildCycles_night_day_night_witness :
  1 < 2 ∧ 2 < 3 ∧
  length (buildCyclesFromEvents 0 const_uuid night_day_night_log) = 4%nat.
Proof.
  split; [lia|]. split; [lia|].
  unfold night_day_night_log.
  rewrite (buildCycles_night_day_night 0 const_uuid
             (plain_event "a" sleep_start 1) (plain_event "b" sleep_end 2)
             (plain_event "c" sleep_start 3)); simpl; (reflexivity || lia).
Defined.

(** C3: on [sleep_start@T1, sleep_start@T2] with [T1 < T2] the first NIGHT
    cycle of the result closes at T1, not at T2: it is the empty cycle
    that the scan pushes on meeting the seeding event again.  The cycle
    from T1 to T2 without end event comes second, and the open NIGHT
    cycle from T2 third. *)
Theorem buildCycles_restarted_sleep (now_ : Z) (uuid_ : nat → string) (e1 e2 : event) :
  ev_type e1 = sleep_start → ev_type e2 = sleep_start →
  ev_ts e1 < ev_ts e2 →
  buildCyclesFromEvents now_ uuid_ [e1; e2] =
    [ {| c_id := uuid_ 0%nat; c_type := NIGHT;
         startTs := Some (ev_ts e1); endTs := Some (ev_ts e1);
         startEvent := Some e1; endEvent := None |};
      {| c_id := uuid_ 1%nat; c_type := NIGHT;
         startTs := Some (ev_ts e1); endTs := Some (ev_ts e2);
         startEvent := Some e1; endEvent := None |};
      {| c_id := uuid_ 2%nat; c_type := NIGHT;
         startTs := Some (ev_ts e2); endTs := None;
         startEvent := Some e2; endEvent := None |} ].
Proof.
  intros H1 H2 _.
  destruct e1, e2; simpl in *; by subst.
Qed.

Lemma buildCycles_restarted_sleep_witness :
  1 < 2 ∧
  head (buildCyclesFromEvents 0 const_uuid restarted_sleep_log) ≫= endTs = Some 1.
Proof.
  split; [lia|].
  unfold restarted_sleep_log.
  rewrite (buildCycles_restarted_sleep 0 const_uuid
             (plain_event "a" sleep_start 1) (plain_event "b" sleep_start 2));
    simpl; (reflexivity || lia).
Defined.

(** C7: for the empty event list [buildCyclesFromEvents] returns exactly
    one cycle, the synthetic DAY cycle with the constant id
    ['virtual-now'], [startTs] the current time, [endTs = null] and no
    start or end event. *)
Theorem buildCycles_empty (now_ : Z) (uuid_ : nat → string) :
  buildCyclesFromEvents now_ uuid_ [] =
    [ {| c_id := "virtual-now"; c_type := DAY; startTs := Some now_; endTs := None;
         startEvent := None; endEvent := None |} ].
Proof. reflexivity. Qed.

(** ** Nearest sample *)

Lemma is_nearest_unique (hs : list Z) (ts : Z) (k k' : nat) :
  is_nearest hs ts k → is_nearest hs ts k' → k = k'.
Proof.
  intros (hk & Hk & Hmin & Hlow) (hk' & Hk' & Hmin' & Hlow').
  destruct (Nat.lt_trichotomy k k') as [Hlt|[Heq|Hgt]]; [|done|].
  - specialize (Hlow' _ _ Hk Hlt). specialize (Hmin _ _ Hk'). lia.
  - specialize (Hlow _ _ Hk' Hgt). specialize (Hmin' _ _ Hk). lia.
Qed.

(** The loop keeps the best index of the part of [hours] scanned so far. *)
Lemma nearest_loop_is_nearest (ts : Z) (rest scanned : list Z) (bestIdx : nat) (hb : Z) :
  scanned !! bestIdx = Some hb →
  is_nearest scanned ts bestIdx →
  is_nearest (scanned ++ rest) ts
    (nearest_loop ts rest (length scanned) bestIdx (Z.abs (hb - ts))).
Proof.
  revert scanned bestIdx hb.
  induction rest as [|h rest IH]; intros scanned bestIdx hb Hb Hbest; simpl.
  - by rewrite app_nil_r.
  - destruct Hbest as (hb' & Hb' & Hmin & Hlow). simplify_eq.
    replace (scanned ++ h :: rest) with ((scanned ++ [h]) ++ rest)
      by (by rewrite <- app_assoc).
    replace (S (length scanned)) with (length (scanned ++ [h]))
      by (rewrite length_app; simpl; lia).
    case_bool_decide as Hlt.
    + apply IH; [by apply list_lookup_middle|].
      exists h. split; [by apply list_lookup_middle|]. split.
      * intros j hj Hj. apply lookup_snoc_Some in Hj as [[_ Hj]|[_ ->]]; [|lia].
        specialize (Hmin _ _ Hj). lia.
      * intros j hj Hj Hjk. apply lookup_snoc_Some in Hj as [[_ Hj]|[-> _]]; [|lia].
        specialize (Hmin _ _ Hj). lia.
    + apply lookup_lt_Some in Hb as Hlen.
      apply IH; [by rewrite lookup_app_l|].
      exists hb. split; [by rewrite lookup_app_l|]. split.
      * intros j hj Hj. apply lookup_snoc_Some in Hj as [[_ Hj]|[_ ->]]; [|lia].
        by apply (Hmin j).
      * intros j hj Hj Hjb. apply lookup_snoc_Some in Hj as [[_ Hj]|[-> _]]; [|lia].
        by apply (Hlow j).
Qed.

Lemma best_index_is_nearest (ts h0 : Z) (rest : list Z) :
  is_nearest (h0 :: rest) ts (best_index ts h0 rest).
Proof.
  apply (nearest_loop_is_nearest ts rest [h0] 0 h0); [done|].
  exists h0. split; [done|]. split.
  - intros [|j] hj Hj; simplify_eq/=. lia.
  - intros j hj _ Hj. lia.
Qed.

Lemma nearestWeatherAtTs_no_record (ts : Z) : nearestWeatherAtTs None ts = inr None.
Proof. reflexivity. Qed.

(** C10: for a record that has its [temps] and [hums] arrays,
    [nearestWeatherAtTs] returns [null] when [hours] is missing or empty;
    otherwise it picks the lowest index [k] at which [|hours[k] - ts|] is
    least (no entry is closer, every earlier entry is strictly farther)
    and returns [temps[k]] and [hums[k]] when both are numbers and [null]
    when one is not.  So it returns [null] exactly when the record has no
    hours or one of the two samples at the selected index is not a
    number. *)
Theorem nearestWeatherAtTs_lowest_nearest (r : weather_record) (ts : Z)
    (tl hl : list sample) :
  temps r = Some tl → hums r = Some hl →
  (∀ hs, hours r = Some hs → hs ≠ [] →
     ∃ k, is_nearest hs ts k ∧
          nearestWeatherAtTs (Some r) ts =
            inr (t ← number_at tl k; h ← number_at hl k; Some {| temp := t; hum := h |})) ∧
  (nearestWeatherAtTs (Some r) ts = inr None ↔
     hours r = None ∨ hours r = Some [] ∨
     ∃ hs k, hours r = Some hs ∧ is_nearest hs ts k ∧
             (number_at tl k = None ∨ number_at hl k = None)).
Proof.
  intros Ht Hh.
  assert (∀ hs, hours r = Some hs → hs ≠ [] →
     ∃ k, is_nearest hs ts k ∧
          nearestWeatherAtTs (Some r) ts =
            inr (t ← number_at tl k; h ← number_at hl k; Some {| temp := t; hum := h |}))
    as Hsel.
  { intros [|h0 rest] Hhs Hne; [done|].
    exists (best_index ts h0 rest). split; [apply best_index_is_nearest|].
    unfold nearestWeatherAtTs, number_at. rewrite Hhs, Ht, Hh.
    destruct (tl !! _) as [[t|]|], (hl !! _) as [[h|]|]; done. }
  split; [done|].
  destruct (hours r) as [[|h0 rest]|] eqn:Hhs.
  - split; [by auto|]. intros _. unfold nearestWeatherAtTs. by rewrite Hhs.
  - destruct (Hsel _ eq_refl) as (k & Hk & Hres); [done|].
    rewrite Hres. split.
    + intros Hnone. right; right. exists (h0 :: rest), k.
      split_and!; [done..|].
      destruct (number_at tl k); [|by left].
      destruct (number_at hl k); [done|by right].
    + intros [?|[?|(hs & k' & ? & Hk' & Hnum)]]; [done..|]. simplify_eq.
      rewrite (is_nearest_unique _ _ _ _ Hk Hk').
      destruct Hnum as [->| ->]; [done|]. by destruct (number_at tl k').
  - split; [by auto|]. intros _. unfold nearestWeatherAtTs. by rewrite Hhs.
Qed.

Lemma nearestWeatherAtTs_lowest_nearest_witness :
  temps three_hours = Some [Some 20%Q; Some 21%Q; Some 22%Q] ∧
  hums three_hours = Some [Some 50%Q; None; Some 52%Q] ∧
  (nearestWeatherAtTs (Some three_hours) 5400000 = inr None ↔
     hours three_hours = None ∨ hours three_hours = Some [] ∨
     ∃ hs k, hours three_hours = Some hs ∧ is_nearest hs 5400000 k ∧
             (number_at [Some 20%Q; Some 21%Q; Some 22%Q] k = None ∨
              number_at [Some 50%Q; None; Some 52%Q] k = None)).
Proof.
  split; [reflexivity|]. split; [reflexivity|].
  apply (nearestWeatherAtTs_lowest_nearest three_hours 5400000
           [Some 20%Q; Some 21%Q; Some 22%Q] [Some 50%Q; None; Some 52%Q]);
    reflexivity.
Defined.

(** On a tie the earlier hour wins: 5400000 is as far from the second
    hour as from the third, and the second is taken. *)
Example nearest_tie : best_index 5400000 0 [3600000; 7200000] = 1%nat.
Proof. reflexivity. Qed.

(** ** Weather cache *)

Ltac run := unfold mbind, M_bind, mret, M_ret, lift, get_world, set_world, throw; simpl.

Section OperationFacts.

Context (P : platform).

Lemma has_series_spec (c : weather_record) :
  has_series c = true ↔ is_Some (hours c) ∧ is_Some (temps c) ∧ is_Some (hums c).
Proof.
  unfold has_series. rewrite !andb_true_iff, !bool_decide_eq_true. tauto.
Qed.

Lemma getDaily_hit (date lat lon : Z) (dk : string) (w : world) (c : weather_record) :
  ymd date = inr dk →
  weather_cache w !! cache_key dk lat lon = Some c →
  has_series c = true →
  getDailyWeatherArrays P date lat lon w = (inr c, w).
Proof.
  intros Hd Hc Hs. unfold getDailyWeatherArrays. run.
  rewrite Hd; simpl. by rewrite Hc, Hs.
Qed.

Lemma getDaily_miss (date lat lon : Z) (dk : string) (w : world) :
  ymd date = inr dk →
  (weather_cache w !! cache_key dk lat lon = None ∨
   ∃ c, weather_cache w !! cache_key dk lat lon = Some c ∧ has_series c = false) →
  getDailyWeatherArrays P date lat lon w =
    fetchDay P dk (cache_key dk lat lon) lat lon w.
Proof.
  intros Hd Hc. unfold getDailyWeatherArrays. run.
  rewrite Hd; simpl. destruct Hc as [->|(c & -> & ->)]; done.
Qed.

Lemma fetchDay_requests (dk key : string) (lat lon : Z) (w : world) :
  requests (fetchDay P dk key lat lon w).2 = requests w ++ [weather_url dk lat lon].
Proof.
  unfold fetchDay. run.
  destruct (fetch P _) as [[[] [b|]]|]; done.
Qed.

Lemma fetchDay_events (dk key : string) (lat lon : Z) (w : world) :
  events (fetchDay P dk key lat lon w).2 = events w.
Proof.
  unfold fetchDay. run.
  destruct (fetch P _) as [[[] [b|]]|]; done.
Qed.

Lemma getDaily_events (date lat lon : Z) (w : world) :
  events (getDailyWeatherArrays P date lat lon w).2 = events w.
Proof.
  unfold getDailyWeatherArrays. run.
  destruct (ymd date) as [e|dk]; simpl; [done|].
  destruct (weather_cache w !! _) as [c|]; [destruct (has_series c)|];
    simpl; try done; apply fetchDay_events.
Qed.

End OperationFacts.

(** C5, as the code has it: [getDailyWeatherArrays] returns the cached
    record, and leaves the world as it is (no fetch), when the cache holds
    under the key of (dateKey, lat, lon) a record that has its [hours],
    [temps] and [hums] arrays, empty or not; with no record under the key,
    or one that lacks an array, it fetches; and once a key holds a record
    with the three arrays, no later call for it, whatever the platform
    answers, fetches or changes anything. *)
Theorem getDailyWeatherArrays_cache (P : platform) (date lat lon : Z) (dk : string) (w : world) :
  ymd date = inr dk →
  (∀ c, weather_cache w !! cache_key dk lat lon = Some c →
        is_Some (hours c) → is_Some (temps c) → is_Some (hums c) →
        getDailyWeatherArrays P date lat lon w = (inr c, w)) ∧
  ((weather_cache w !! cache_key dk lat lon = None ∨
    ∃ c, weather_cache w !! cache_key dk lat lon = Some c ∧
         ¬ (is_Some (hours c) ∧ is_Some (temps c) ∧ is_Some (hums c))) →
   requests (getDailyWeatherArrays P date lat lon w).2 =
     requests w ++ [weather_url dk lat lon]) ∧
  (∀ c (later : list platform),
        weather_cache w !! cache_key dk lat lon = Some c →
        is_Some (hours c) → is_Some (temps c) → is_Some (hums c) →
        fold_left (λ w' P', (getDailyWeatherArrays P' date lat lon w').2) later w = w).
Proof.
  intros Hd. split_and!.
  - intros c Hc ? ? ?. apply (getDaily_hit P _ _ _ dk); [done..|].
    by apply has_series_spec.
  - intros Hmiss. rewrite (getDaily_miss P _ _ _ dk); [apply fetchDay_requests|done|].
    destruct Hmiss as [?|(c & Hc & Hno)]; [by left|right].
    exists c. split; [done|]. apply not_true_is_false.
    by rewrite has_series_spec.
  - intros c later Hc ? ? ?. induction later as [|P' later IH]; simpl; [done|].
    rewrite (getDaily_hit P' _ _ _ dk w c); [done..|].
    by apply has_series_spec.
Qed.

Lemma getDailyWeatherArrays_cache_witness :
  ymd 0 = inr "1970-01-01" ∧
  fold_left (λ w' P', (getDailyWeatherArrays P' 0 0 0 w').2) [offline; no_data]
    world_after_no_data = world_after_no_data.
Proof.
  split; [reflexivity|].
  apply (getDailyWeatherArrays_cache offline 0 0 0 "1970-01-01" world_after_no_data
           eq_refl) with (c := empty_day);
    first [by vm_compute | by eexists].
Defined.

(** C5 as stated fails: after the service answered without data, the
    cache holds a record with three empty arrays under the key, and the
    next call returns that record without a fetch: the world, its list of
    requests included, stays as it was. *)
Lemma getDailyWeatherArrays_returns_empty_record :
  weather_cache world_after_no_data !! cache_key "1970-01-01" 0 0 = Some empty_day ∧
  hours empty_day = Some [] ∧ temps empty_day = Some [] ∧ hums empty_day = Some [] ∧
  getDailyWeatherArrays no_data 0 0 0 world_after_no_data
    = (inr empty_day, world_after_no_data).
Proof.
  assert (weather_cache world_after_no_data !! cache_key "1970-01-01" 0 0
          = Some empty_day) as Hc by (by vm_compute).
  split_and!; [done..|].
  by apply (getDaily_hit no_data 0 0 0 "1970-01-01").
Qed.

(** ** Event writes *)

Section WriteFacts.

Context (P : platform).

Lemma weatherForEventTs_events (ts : Z) (w : world) :
  events (weatherForEventTs P ts w).2 = events w.
Proof.
  unfold weatherForEventTs, getLatLon. run.
  destruct (geolocation P) as [[lat lon]|]; simpl; [|done].
  pose proof (getDaily_events P ts lat lon w) as He.
  destruct (getDailyWeatherArrays P ts lat lon w) as [[e|rec] w']; simpl in *; [done|].
  destruct (nearestWeatherAtTs (Some rec) ts) as [e|[r|]]; done.
Qed.

(** The guarded [try] block never throws and never touches the events;
    it leaves [ev] as it is or sets its [weather]. *)
Lemma attachWeather_total (ev : event) (w : world) :
  ∃ ev' w', attachWeather P ev w = (inr ev', w') ∧ events w' = events w ∧
            (ev' = ev ∨ ∃ r, ev' = with_weather ev (Some r)).
Proof.
  unfold attachWeather. destruct (wants_weather (ev_type ev)).
  - unfold catch. run.
    pose proof (weatherForEventTs_events (ev_ts ev) w) as He.
    destruct (weatherForEventTs P (ev_ts ev) w) as [[e|[r|]] w']; simpl in *; eauto 10.
  - run. eauto 10.
Qed.

(** When the lookup yields [null] or throws, [ev] stays as it is. *)
Lemma attachWeather_failed (ev : event) (w : world) :
  (weatherForEventTs P (ev_ts ev) w).1 = inr None ∨
  (∃ e, (weatherForEventTs P (ev_ts ev) w).1 = inl e) →
  wants_weather (ev_type ev) = true →
  attachWeather P ev w = (inr ev, (weatherForEventTs P (ev_ts ev) w).2).
Proof.
  intros Hfail Hwants. unfold attachWeather, catch. rewrite Hwants. run.
  destruct (weatherForEventTs P (ev_ts ev) w) as [[e|[r|]] w']; simpl in *; [done| |done].
  by destruct Hfail as [?|[? ?]].
Qed.

(** The three ways a lookup fails. *)
Lemma weatherForEventTs_no_location (ts : Z) (w : world) :
  geolocation P = None → weatherForEventTs P ts w = (inr None, w).
Proof. intros H. unfold weatherForEventTs, getLatLon. run. by rewrite H. Qed.

Lemma weatherForEventTs_fetch_error (ts lat lon : Z) (dk : string) (w : world) :
  geolocation P = Some (lat, lon) →
  ymd ts = inr dk →
  weather_cache w !! cache_key dk lat lon = None →
  (fetch P (weather_url dk lat lon) = None ∨
   ∃ resp, fetch P (weather_url dk lat lon) = Some resp ∧ ok resp = false) →
  ∃ e, (weatherForEventTs P ts w).1 = inl e.
Proof.
  intros Hloc Hd Hc Hf. unfold weatherForEventTs, getLatLon. run. rewrite Hloc.
  rewrite (getDaily_miss P ts lat lon dk w Hd) by auto.
  unfold fetchDay. run.
  destruct Hf as [->|(resp & -> & ->)]; simpl; eauto.
Qed.

Lemma weatherForEventTs_no_sample (ts lat lon : Z) (dk : string) (w : world)
    (c : weather_record) :
  geolocation P = Some (lat, lon) →
  ymd ts = inr dk →
  weather_cache w !! cache_key dk lat lon = Some c →
  has_series c = true →
  nearestWeatherAtTs (Some c) ts = inr None →
  weatherForEventTs P ts w = (inr None, w).
Proof.
  intros Hloc Hd Hc Hs Hn. unfold weatherForEventTs, getLatLon. run. rewrite Hloc.
  rewrite (getDaily_hit P ts lat lon dk w c) by done. by rewrite Hn.
Qed.

Lemma addEvent_puts (ev : event) (w : world) (dk : string) :
  ymd (ev_ts ev) = inr dk →
  ∃ ev' w1, attachWeather P ev w = (inr ev', w1) ∧ events w1 = events w ∧
    (ev' = ev ∨ ∃ r, ev' = with_weather ev (Some r)) ∧
    addEvent_write P ev w =
      (inr tt, with_events
                 (<[from_option id (uuid P 0%nat) (ev_id ev) :=
                      added_record (uuid P 0%nat) dk ev']>) w1).
Proof.
  intros Hd. destruct (attachWeather_total ev w) as (ev' & w1 & Ha & He & Hev).
  exists ev', w1. split_and!; [done..|].
  unfold addEvent_write, put_event. run. rewrite Ha.
  assert (ev_ts ev' = ev_ts ev) as -> by (by destruct Hev as [->|[r ->]]).
  assert (ev_id ev' = ev_id ev) as Hid by (by destruct Hev as [->|[r ->]]).
  rewrite Hd. simpl. by rewrite Hid.
Qed.

Lemma updateEvent_puts (ev : event) (w : world) (dk k : string) :
  ymd (ev_ts ev) = inr dk → ev_id ev = Some k →
  ∃ ev' w1, attachWeather P ev w = (inr ev', w1) ∧ events w1 = events w ∧
    (ev' = ev ∨ ∃ r, ev' = with_weather ev (Some r)) ∧
    updateEvent P ev w = (inr tt, with_events (<[k := updated_record dk ev']>) w1).
Proof.
  intros Hd Hk. destruct (attachWeather_total ev w) as (ev' & w1 & Ha & He & Hev).
  exists ev', w1. split_and!; [done..|].
  unfold updateEvent, put_event. run. rewrite Ha.
  assert (ev_ts ev' = ev_ts ev) as -> by (by destruct Hev as [->|[r ->]]).
  assert (ev_id ev' = ev_id ev) as Hid by (by destruct Hev as [->|[r ->]]).
  rewrite Hd. simpl. by rewrite Hid, Hk.
Qed.

(** An event without an id cannot be put back. *)
Lemma updateEvent_no_id (ev : event) (w : world) (dk : string) :
  ymd (ev_ts ev) = inr dk → ev_id ev = None →
  (updateEvent P ev w).1 = inl DataError.
Proof.
  intros Hd Hk. destruct (attachWeather_total ev w) as (ev' & w1 & Ha & He & Hev).
  unfold updateEvent, put_event. run. rewrite Ha.
  assert (ev_ts ev' = ev_ts ev) as -> by (by destruct Hev as [->|[r ->]]).
  assert (ev_id ev' = ev_id ev) as Hid by (by destruct Hev as [->|[r ->]]).
  rewrite Hd. simpl. by rewrite Hid, Hk.
Qed.

(** [updateEvent] stores the day computed from [ts], whatever the input
    carries. *)
Lemma updateEvent_recomputes_dateKey (ev : event) (w : world) (dk k : string) :
  ymd (ev_ts ev) = inr dk → ev_id ev = Some k →
  ∃ w' rec, updateEvent P ev w = (inr tt, w') ∧ events w' !! k = Some rec ∧
            ev_ts rec = ev_ts ev ∧ ev_dateKey rec = Some dk.
Proof.
  intros Hd Hk.
  destruct (updateEvent_puts ev w dk k Hd Hk) as (ev' & w1 & _ & _ & Hev & ->).
  eexists _, _. split; [done|]. simpl. rewrite lookup_insert_eq.
  split; [done|]. by destruct Hev as [->|[r ->]].
Qed.

(** The write of [addEvent] stores the computed day for an input without
    [dateKey]. *)
Lemma addEvent_computes_dateKey (ev : event) (w : world) (dk : string) :
  ymd (ev_ts ev) = inr dk → ev_dateKey ev = None →
  ∃ w' rec k, addEvent_write P ev w = (inr tt, w') ∧ events w' !! k = Some rec ∧
              ev_ts rec = ev_ts ev ∧ ev_dateKey rec = Some dk.
Proof.
  intros Hd Hnone.
  destruct (addEvent_puts ev w dk Hd) as (ev' & w1 & _ & _ & Hev & ->).
  eexists _, _, _. split; [done|]. simpl. rewrite lookup_insert_eq.
  split; [done|]. destruct Hev as [->|[r ->]]; simpl; by rewrite Hnone.
Qed.

End WriteFacts.




(** C8 as stated fails: a [sleep_start] event that already carries a
    reading is updated while no position is available; the lookup yields
    [null], and the stored record has a [weather] field, the old one. *)
Lemma updateEvent_keeps_old_weather :
  ev_type bedtime_with_weather = sleep_start ∧
  weatherForEventTs offline (ev_ts bedtime_with_weather) empty_world
    = (inr None, empty_world) ∧
  ∃ w', updateEvent offline bedtime_with_weather empty_world = (inr tt, w') ∧
        events w' !! "a" ≫= ev_weather
          = Some {| w_temp := 20; w_hum := 50; w_lat := 0; w_lon := 0 |}.
Proof.
  split; [reflexivity|]. split; [reflexivity|].
  destruct (updateEvent_puts offline bedtime_with_weather empty_world
              "1970-01-01" "a" eq_refl eq_refl) as (ev' & w1 & Ha & _ & _ & ->).
  assert (ev' = bedtime_with_weather) as -> by (by inversion Ha).
  eexists. split; [done|]. simpl. by rewrite lookup_insert_eq.
Qed.

(** ** Statistics *)

Lemma iterate_by_ts_perm (store : gmap string event) (in_range : Z → bool) :
  iterate_by_ts store in_range ≡ₚ
    (filter (λ kv : string * event, in_range (ev_ts kv.2) = true) (map_to_list store)).*2.
Proof. unfold iterate_by_ts. by rewrite merge_sort_Permutation. Qed.

Lemma elem_of_iterate_by_ts (store : gmap string event) (in_range : Z → bool) (e : event) :
  e ∈ iterate_by_ts store in_range ↔
  ∃ k, store !! k = Some e ∧ in_range (ev_ts e) = true.
Proof.
  rewrite iterate_by_ts_perm, list_elem_of_fmap. split.
  - intros ([k e'] & -> & Hin). apply list_elem_of_filter in Hin as [Hr Hin].
    apply elem_of_map_to_list in Hin. eauto.
  - intros (k & Hk & Hr). exists (k, e). split; [done|].
    apply list_elem_of_filter. split; [done|]. by apply elem_of_map_to_list.
Qed.

Lemma eventsBetween_in_span (lo hi : Z) (w : world) :
  lo ≤ hi →
  ∃ evs, eventsBetween lo hi w = (inr evs, w) ∧
         evs ≡ₚ stored_in_span (events w) lo hi ∧
         ∀ e, e ∈ evs ↔ in_span (events w) lo hi e.
Proof.
  intros Hle. unfold eventsBetween. rewrite bool_decide_eq_false_2 by lia. run.
  eexists. split; [done|]. split.
  - rewrite iterate_by_ts_perm. unfold stored_in_span. f_equiv.
    erewrite list_filter_iff; [done|]. intros [k e]; simpl.
    rewrite andb_true_iff, !bool_decide_eq_true. done.
  - intros e. rewrite elem_of_iterate_by_ts.
    unfold in_span. setoid_rewrite andb_true_iff.
    setoid_rewrite bool_decide_eq_true. naive_solver.
Qed.

(** A lower bound above the upper one is refused. *)
Lemma eventsBetween_ill_formed (lo hi : Z) (w : world) :
  hi < lo → eventsBetween lo hi w = (inl DataError, w).
Proof. intros Hlt. unfold eventsBetween. by rewrite bool_decide_eq_true_2 by lia. Qed.

Lemma existsb_has_type (t : event_type) (evs : list event) :
  existsb (has_type t) evs = true ↔ ∃ e, e ∈ evs ∧ ev_type e = t.
Proof.
  rewrite existsb_exists. unfold has_type.
  setoid_rewrite bool_decide_eq_true. setoid_rewrite list_elem_of_In. done.
Qed.

(** C9: for a cycle whose span is a well-formed range, [calcCycleStats]
    returns statistics over the stored events of the span, each once; for a
    NIGHT cycle they carry the number of [wake] events and leave [foodCnt]
    and [exercised] undefined; for a DAY cycle they leave the wake count
    undefined and carry the number of [food] events and [exercised], which
    is true iff some stored event of type [exercise] lies in the span. *)
Theorem calcCycleStats_gated (P : platform) (c : cycle) (w : world) (s : Z) :
  startTs c = Some s →
  s ≤ from_option id (now P) (endTs c) →
  ∃ st, calcCycleStats P c w = (inr st, w) ∧
    stat_events st ≡ₚ stored_in_span (events w) s (from_option id (now P) (endTs c)) ∧
    (c_type c = NIGHT →
       wake_count st = Some (count_type wake (stat_events st)) ∧
       foodCnt st = None ∧ exercised st = None) ∧
    (c_type c = DAY →
       wake_count st = None ∧
       foodCnt st = Some (count_type food (stat_events st)) ∧
       ∃ b, exercised st = Some b ∧
            (b = true ↔
             ∃ e, in_span (events w) s (from_option id (now P) (endTs c)) e ∧
                  ev_type e = exercise)).
Proof.
  intros Hs Hle.
  destruct (eventsBetween_in_span s _ w Hle) as (evs & Hevs & Hperm & Hin).
  exists (stats_of c evs). unfold calcCycleStats. rewrite Hs. run. rewrite Hevs.
  split; [done|]. split; [done|]. split.
  - intros Hn. unfold stats_of; simpl. by rewrite Hn.
  - intros Hd. unfold stats_of; simpl. rewrite Hd; simpl.
    split; [done|]. split; [done|]. eexists. split; [done|].
    rewrite existsb_has_type. by setoid_rewrite Hin.
Qed.

Lemma calcCycleStats_gated_witness :
  startTs closed_night = Some 1 ∧
  1 ≤ from_option id (now offline) (endTs closed_night) ∧
  ∃ st, calcCycleStats offline closed_night night_world = (inr st, night_world) ∧
    stat_events st ≡ₚ stored_in_span (events night_world) 1 5 ∧
    (c_type closed_night = NIGHT →
       wake_count st = Some (count_type wake (stat_events st)) ∧
       foodCnt st = None ∧ exercised st = None) ∧
    (c_type closed_night = DAY →
       wake_count st = None ∧
       foodCnt st = Some (count_type food (stat_events st)) ∧
       ∃ b, exercised st = Some b ∧
            (b = true ↔
             ∃ e, in_span (events night_world) 1 5 e ∧ ev_type e = exercise)).
Proof.
  split; [reflexivity|]. split; [simpl; lia|].
  apply (calcCycleStats_gated offline closed_night night_world 1); [reflexivity|simpl; lia].
Defined.

(** The night of [night_world] counts one awakening and reports neither
    meals nor exercise, although a workout lies in its span. *)
Example night_stats :
  match (calcCycleStats offline closed_night night_world).1 with
  | inr st => (wake_count st, foodCnt st, exercised st) = (Some 1%nat, None, None)
  | inl _ => False
  end.
Proof. by vm_compute. Qed.

(** A cycle that starts after its end has no statistics. *)
Lemma calcCycleStats_ill_formed (P : platform) (c : cycle) (w : world) (s : Z) :
  startTs c = Some s → from_option id (now P) (endTs c) < s →
  calcCycleStats P c w = (inl DataError, w).
Proof.
  intros Hs Hlt. unfold calcCycleStats. rewrite Hs. run.
  by rewrite eventsBetween_ill_formed.
Qed.

(** ** More on the cycle builder *)

Section BuilderMore.

Context (uuid_ : nat → string).

Lemma find_type_Some (t : event_type) (l : list event) (e : event) :
  Builder.find_type t l = Some e → e ∈ l ∧ ev_type e = t.
Proof.
  unfold Builder.find_type. intros H. apply find_some in H as [Hin Ht].
  apply bool_decide_eq_true in Ht. by rewrite list_elem_of_In.
Qed.

Lemma find_type_None (t : event_type) (l : list event) (e : event) :
  Builder.find_type t l = None → e ∈ l → ev_type e ≠ t.
Proof.
  unfold Builder.find_type. intros H Hin Ht.
  apply list_elem_of_In in Hin.
  pose proof (find_none _ _ H e Hin) as Hf. simpl in Hf.
  by rewrite bool_decide_eq_true_2 in Hf.
Qed.

Lemma find_type_boundaries (t : event_type) (l : list event) :
  t = sleep_start ∨ t = sleep_end →
  Builder.find_type t (List.filter is_boundary l) = Builder.find_type t l.
Proof.
  intros Ht. unfold Builder.find_type.
  induction l as [|e l IH]; simpl; [done|].
  unfold is_boundary at 1. case_bool_decide as He.
  - rewrite He. destruct Ht as [-> | ->]; simpl; by rewrite bool_decide_eq_true_2.
  - destruct (ev_type e) eqn:Hte; simpl; rewrite ?IH; try done;
      rewrite bool_decide_eq_false_2; naive_solver.
Qed.

Lemma step_other (st : Builder.locals) (e : event) :
  is_boundary e = false → Builder.step uuid_ st e = st.
Proof. unfold is_boundary, Builder.step. by destruct (ev_type e). Qed.

Lemma scan_boundaries (l : list event) (st : Builder.locals) :
  Builder.scan uuid_ st (List.filter is_boundary l) = Builder.scan uuid_ st l.
Proof.
  revert st. induction l as [|e l IH]; intros st; simpl; [done|].
  destruct (is_boundary e) eqn:He; simpl; [apply IH|].
  rewrite step_other by done. apply IH.
Qed.

Lemma scan_snoc (l : list event) (e : event) (st : Builder.locals) :
  Builder.scan uuid_ st (l ++ [e]) = Builder.step uuid_ (Builder.scan uuid_ st l) e.
Proof. unfold Builder.scan. by rewrite fold_left_app. Qed.

End BuilderMore.

(** X1: events other than [sleep_start] and [sleep_end] do not change the
    cycles: when the log has a boundary event, the builder returns for it
    what it returns for its boundary events alone. *)
Theorem buildCycles_ignores_other_events (now_ : Z) (uuid_ : nat → string) (l : list event) :
  existsb is_boundary l = true →
  buildCyclesFromEvents now_ uuid_ l
    = buildCyclesFromEvents now_ uuid_ (List.filter is_boundary l).
Proof.
  intros Hex. apply existsb_exists in Hex as (b & Hb & Hbb).
  apply list_elem_of_In in Hb.
  unfold buildCyclesFromEvents, Builder.seed.
  rewrite !find_type_boundaries by auto.
  destruct (Builder.find_type sleep_start l) as [s|] eqn:Hs;
    destruct (Builder.find_type sleep_end l) as [e|] eqn:He;
    try (by repeat case_match; simplify_eq; rewrite scan_boundaries).
  exfalso. pose proof (find_type_None _ _ b Hs Hb). pose proof (find_type_None _ _ b He Hb).
  unfold is_boundary in Hbb. by destruct (ev_type b).
Qed.

Lemma buildCycles_ignores_other_events_witness :
  existsb is_boundary night_world_log = true ∧
  buildCyclesFromEvents 0 const_uuid night_world_log
    = buildCyclesFromEvents 0 const_uuid (List.filter is_boundary night_world_log).
Proof.
  split; [reflexivity|].
  apply (buildCycles_ignores_other_events 0 const_uuid night_world_log). reflexivity.
Defined.

(** X2: a log that has events but no boundary event gives one open DAY
    cycle that starts at the first event and has no start event. *)
Theorem buildCycles_no_boundary (now_ : Z) (uuid_ : nat → string) (e0 : event) (l : list event) :
  existsb is_boundary (e0 :: l) = false →
  buildCyclesFromEvents now_ uuid_ (e0 :: l) =
    [ {| c_id := uuid_ 0%nat; c_type := DAY; startTs := Some (ev_ts e0); endTs := None;
         startEvent := None; endEvent := None |} ].
Proof.
  intros Hno.
  assert (∀ e, e ∈ e0 :: l → is_boundary e = false) as Hall.
  { intros e He. apply list_elem_of_In in He.
    destruct (is_boundary e) eqn:Hb; [|done].
    assert (existsb is_boundary (e0 :: l) = true) by (apply existsb_exists; eauto).
    congruence. }
  assert (∀ t, t = sleep_start ∨ t = sleep_end → Builder.find_type t (e0 :: l) = None) as Hf.
  { intros t Ht. destruct (Builder.find_type t (e0 :: l)) as [e|] eqn:Hfe; [|done].
    apply find_type_Some in Hfe as [Hin Hte]. specialize (Hall _ Hin).
    unfold is_boundary in Hall. rewrite Hte in Hall. by destruct Ht as [-> | ->]. }
  unfold buildCyclesFromEvents, Builder.seed. rewrite !Hf by auto.
  assert (List.filter is_boundary (e0 :: l) = []) as Hnil.
  { clear Hno Hf. induction (e0 :: l) as [|a l' IH]; simpl; [done|].
    rewrite (Hall a) by set_solver. apply IH. intros e He. apply Hall. set_solver. }
  by rewrite <- (scan_boundaries uuid_ (e0 :: l)), Hnil.
Qed.

Lemma buildCycles_no_boundary_witness :
  existsb is_boundary [plain_event "a" water 5; plain_event "b" wake 7] = false ∧
  buildCyclesFromEvents 0 const_uuid [plain_event "a" water 5; plain_event "b" wake 7] =
    [ {| c_id := const_uuid 0%nat; c_type := DAY; startTs := Some 5; endTs := None;
         startEvent := None; endEvent := None |} ].
Proof.
  split; [reflexivity|].
  apply (buildCycles_no_boundary 0 const_uuid (plain_event "a" water 5)
           [plain_event "b" wake 7]). reflexivity.
Defined.

Lemma sorted_by_ts_cons (e : event) (l : list event) :
  sorted_by_ts (e :: l) = true →
  sorted_by_ts l = true ∧ Forall (λ x, ev_ts e ≤ ev_ts x) l.
Proof.
  revert e. induction l as [|a l IH]; intros e H; [by split|].
  change (bool_decide (ev_ts e ≤ ev_ts a) && sorted_by_ts (a :: l) = true) in H.
  apply andb_prop in H as [Hea Hs]. apply bool_decide_eq_true in Hea.
  split; [done|]. destruct (IH a Hs) as [_ Hall].
  constructor; [done|]. eapply Forall_impl; [done|]. simpl. intros; lia.
Qed.

(** In an ordered log the first event of a type is the earliest one. *)
Lemma find_type_earliest (t : event_type) (l : list event) (x y : event) :
  sorted_by_ts l = true → Builder.find_type t l = Some x →
  y ∈ l → ev_type y = t → ev_ts x ≤ ev_ts y.
Proof.
  unfold Builder.find_type.
  induction l as [|a l IH]; intros Hs Hf Hy Ht; [by apply elem_of_nil in Hy|].
  apply sorted_by_ts_cons in Hs as [Hs Hall]. simpl in Hf.
  case_bool_decide as Ha.
  - simplify_eq. apply elem_of_cons in Hy as [->|Hy]; [lia|].
    rewrite Forall_forall in Hall. by apply Hall.
  - apply elem_of_cons in Hy as [->|Hy]; [done|]. by apply IH.
Qed.

Section BuilderOrder.

Context (uuid_ : nat → string).

Lemma scan_forward (l : list event) (st : Builder.locals) (s0 : Z) :
  sorted_by_ts l = true →
  Builder.cur_startTs st = Some s0 →
  Forall (λ e, is_boundary e = true → s0 ≤ ev_ts e) l →
  Forall forward (Builder.cycles st) →
  Forall forward (Builder.cycles (Builder.scan uuid_ st l)).
Proof.
  revert st s0. induction l as [|e l IH]; intros st s0 Hs H0 Hb Hf; [done|].
  apply sorted_by_ts_cons in Hs as [Hs Hall].
  apply Forall_cons in Hb as [He Hb]. simpl.
  destruct (is_boundary e) eqn:Hbe.
  - specialize (He eq_refl).
    assert (Forall (λ e', is_boundary e' = true → ev_ts e ≤ ev_ts e') l) as Hb'.
    { eapply Forall_impl; [exact Hall|]. by intros. }
    assert (∀ t ee, forward {| c_id := uuid_ (length (Builder.cycles st)); c_type := t;
                              startTs := Some s0; endTs := Some (ev_ts e);
                              startEvent := Builder.startEventRef st; endEvent := ee |})
      as Hnew.
    { intros t ee s e' ? ?; simplify_eq/=. done. }
    unfold is_boundary in Hbe. unfold Builder.step, Builder.push. rewrite H0.
    destruct (ev_type e); try done; destruct (Builder.cur_phase st);
      (apply (IH _ (ev_ts e)); simpl; [done..|]);
      try done; apply Forall_app; split; try done; by repeat constructor.
  - rewrite step_other by done. by apply (IH st s0).
Qed.

Lemma seed_before_boundaries (now_ : Z) (l : list event) (st : Builder.locals) :
  sorted_by_ts l = true →
  Builder.seed now_ l = Builder.Scan st →
  ∃ s0, Builder.cur_startTs st = Some s0 ∧
        Forall (λ e, is_boundary e = true → s0 ≤ ev_ts e) l.
Proof.
  intros Hs. unfold Builder.seed.
  destruct (Builder.find_type sleep_start l) as [s|] eqn:Hfs;
    destruct (Builder.find_type sleep_end l) as [e|] eqn:Hfe.
  - case_bool_decide as Hlt; intros ?; simplify_eq; eexists; (split; [done|]);
      apply Forall_forall; intros b Hb Hbb; simpl;
      unfold is_boundary in Hbb; destruct (ev_type b) eqn:Htb; try done.
    + by apply (find_type_earliest sleep_start l).
    + pose proof (find_type_earliest sleep_end l e b Hs Hfe Hb Htb). lia.
    + pose proof (find_type_earliest sleep_start l s b Hs Hfs Hb Htb). lia.
    + by apply (find_type_earliest sleep_end l).
  - intros ?; simplify_eq. eexists; split; [done|].
    apply Forall_forall; intros b Hb Hbb; simpl.
    unfold is_boundary in Hbb; destruct (ev_type b) eqn:Htb; try done.
    + by apply (find_type_earliest sleep_start l).
    + by pose proof (find_type_None _ _ b Hfe Hb).
  - intros ?; simplify_eq. eexists; split; [done|].
    apply Forall_forall; intros b Hb Hbb; simpl.
    unfold is_boundary in Hbb; destruct (ev_type b) eqn:Htb; try done.
    + by pose proof (find_type_None _ _ b Hfs Hb).
    + by apply (find_type_earliest sleep_end l).
  - destruct l as [|e0 l']; intros ?; simplify_eq. eexists; split; [done|].
    apply Forall_forall; intros b Hb Hbb; simpl.
    unfold is_boundary in Hbb; destruct (ev_type b) eqn:Htb; try done.
    + by pose proof (find_type_None _ _ b Hfs Hb).
    + by pose proof (find_type_None _ _ b Hfe Hb).
Qed.

End BuilderOrder.

(** X3: for events ordered ascending by [ts], no cycle of the result ends
    before it starts. *)
Theorem buildCycles_forward (now_ : Z) (uuid_ : nat → string) (sortedEvents : list event) :
  sorted_by_ts sortedEvents = true →
  Forall forward (buildCyclesFromEvents now_ uuid_ sortedEvents).
Proof.
  intros Hs. unfold buildCyclesFromEvents.
  destruct (Builder.seed now_ sortedEvents) as [st|cs] eqn:Hseed.
  - destruct (seed_before_boundaries now_ _ st Hs Hseed) as (s0 & H0 & Hb).
    apply seed_scan in Hseed as [Hnil _].
    apply Forall_app. split.
    + apply (scan_forward uuid_ _ st s0); [done..|]. by rewrite Hnil.
    + repeat constructor. by intros s e ? ?; simplify_eq/=.
  - apply seed_return in Hseed as ->. repeat constructor.
    by intros s e ? ?; simplify_eq/=.
Qed.

Lemma buildCycles_forward_witness :
  sorted_by_ts night_day_night_log = true ∧
  Forall forward (buildCyclesFromEvents 0 const_uuid night_day_night_log).
Proof.
  split; [reflexivity|].
  apply (buildCycles_forward 0 const_uuid night_day_night_log). reflexivity.
Defined.

(** Without the order the property fails: a wake-up logged before the
    bedtime that precedes it in time gives a cycle from 5 back to 1. *)
Example buildCycles_backward_unsorted :
  ¬ Forall forward
      (buildCyclesFromEvents 0 const_uuid
         [plain_event "a" sleep_start 5; plain_event "b" sleep_end 1]).
Proof.
  intros H. apply Forall_cons in H as [_ H]. apply Forall_cons in H as [H _].
  specialize (H 5 1 eq_refl eq_refl). lia.
Qed.

Section BuilderShape.

Context (uuid_ : nat → string).

Lemma no_two_days_snoc (cs : list cycle) (c : cycle) :
  no_two_days cs →
  (∀ c', last cs = Some c' → c_type c' = DAY → c_type c = NIGHT) →
  no_two_days (cs ++ [c]).
Proof.
  intros Hcs Hlast i c1 c2 H1 H2 Hd.
  apply lookup_snoc_Some in H2 as [[Hlt H2]|[Hi <-]].
  - rewrite lookup_app_l in H1 by lia. by apply (Hcs i c1 c2).
  - rewrite lookup_app_l in H1 by lia.
    apply (Hlast c1); [|done]. rewrite last_lookup.
    by replace (Init.Nat.pred (length cs)) with i by lia.
Qed.

Lemma step_no_two_days (st : Builder.locals) (e : event) :
  no_two_days (Builder.cycles st) → night_after_day st →
  no_two_days (Builder.cycles (Builder.step uuid_ st e)) ∧
  night_after_day (Builder.step uuid_ st e).
Proof.
  intros Hcs Hst.
  assert (∀ t ets eev,
            (∀ c', last (Builder.cycles st) = Some c' → c_type c' = DAY → t = NIGHT) →
            no_two_days (Builder.push uuid_ st t ets eev)) as Hpush.
  { intros t ets eev Ht. by apply no_two_days_snoc. }
  unfold Builder.step, night_after_day in *.
  destruct (ev_type e); try done; destruct (Builder.cur_phase st) eqn:Hp; simpl.
  - (* sleep_start in DAY *)
    split; [|done]. destruct (Builder.cur_startTs st); [|done].
    apply Hpush. intros c' Hl Hd. by apply (Hst c').
  - split; [by apply Hpush|done].
  - (* sleep_end in DAY: nothing pushed *)
    split; [done|]. intros c' Hl Hd. by apply (Hst c').
  - (* sleep_end in NIGHT *)
    split; [by apply Hpush|]. unfold Builder.push. intros c' Hl Hd.
    rewrite last_snoc in Hl. by simplify_eq/=.
Qed.

Lemma scan_no_two_days (l : list event) (st : Builder.locals) :
  no_two_days (Builder.cycles st) → night_after_day st →
  no_two_days (Builder.cycles (Builder.scan uuid_ st l)) ∧
  night_after_day (Builder.scan uuid_ st l).
Proof.
  revert st. induction l as [|e l IH]; intros st Hcs Hst; [done|].
  simpl. destruct (step_no_two_days st e Hcs Hst). by apply IH.
Qed.

Lemma step_refs_agree (st : Builder.locals) (e : event) :
  Forall refs_agree (Builder.cycles st) → ref_agrees st →
  Forall refs_agree (Builder.cycles (Builder.step uuid_ st e)) ∧
  ref_agrees (Builder.step uuid_ st e).
Proof.
  intros Hcs Hst.
  assert (∀ eev, (∀ e', eev = Some e' →
                        e' = e ∧ ev_type e = closing_type (Builder.cur_phase st)) →
            Forall refs_agree
              (Builder.push uuid_ st (Builder.cur_phase st) (Some (ev_ts e)) eev)) as Hpush.
  { intros eev Hend. apply Forall_app. split; [done|].
    apply Forall_singleton. split; simpl.
    - intros e' He'. by apply Hst.
    - intros e' He'. by destruct (Hend e' He') as [-> ?]. }
  unfold Builder.step, ref_agrees in *.
  destruct (ev_type e) eqn:Hte; try done;
    destruct (Builder.cur_phase st) eqn:Hp; simpl;
    (split; [|by intros e' ?; simplify_eq/=]).
  - destruct (Builder.cur_startTs st); [|done].
    apply Hpush. by intros e' ?; simplify_eq.
  - by apply Hpush.
  - done.
  - apply Hpush. by intros e' ?; simplify_eq.
Qed.

Lemma scan_refs_agree (l : list event) (st : Builder.locals) :
  Forall refs_agree (Builder.cycles st) → ref_agrees st →
  Forall refs_agree (Builder.cycles (Builder.scan uuid_ st l)) ∧
  ref_agrees (Builder.scan uuid_ st l).
Proof.
  revert st. induction l as [|e l IH]; intros st Hcs Hst; [done|].
  simpl. destruct (step_refs_agree st e Hcs Hst). by apply IH.
Qed.

Lemma seed_ref_agrees (now_ : Z) (l : list event) (st : Builder.locals) :
  Builder.seed now_ l = Builder.Scan st → ref_agrees st.
Proof.
  unfold Builder.seed, ref_agrees. intros H e' He'.
  destruct (Builder.find_type sleep_start l) as [s|] eqn:Hfs;
    destruct (Builder.find_type sleep_end l) as [e|] eqn:Hfe;
    try apply find_type_Some in Hfs as [_ Hts];
    try apply find_type_Some in Hfe as [_ Hte];
    repeat case_match; by simplify_eq/=.
Qed.

(** The phase after the scan is set by the last boundary event. *)
Lemma scan_phase (l : list event) (st : Builder.locals) :
  Builder.cur_phase (Builder.scan uuid_ st l) =
    match last_boundary_type l with
    | Some sleep_start => NIGHT
    | Some sleep_end => DAY
    | _ => Builder.cur_phase st
    end.
Proof.
  unfold last_boundary_type.
  induction l as [|e l IH] using rev_ind; [done|].
  rewrite scan_snoc, List.filter_app. simpl.
  destruct (is_boundary e) eqn:Hb.
  - rewrite last_snoc. simpl. unfold is_boundary in Hb. unfold Builder.step.
    destruct (ev_type e); try done; by destruct (Builder.cur_phase _).
  - rewrite app_nil_r, step_other by done. apply IH.
Qed.

End BuilderShape.

(** X4: a DAY cycle is never followed by another DAY cycle. *)
Theorem buildCycles_no_two_days (now_ : Z) (uuid_ : nat → string) (l : list event)
    (i : nat) (c1 c2 : cycle) :
  buildCyclesFromEvents now_ uuid_ l !! i = Some c1 →
  buildCyclesFromEvents now_ uuid_ l !! S i = Some c2 →
  c_type c1 = DAY → c_type c2 = NIGHT.
Proof.
  unfold buildCyclesFromEvents.
  destruct (Builder.seed now_ l) as [st|cs] eqn:Hseed.
  - apply seed_scan in Hseed as [Hnil _].
    destruct (scan_no_two_days uuid_ l st) as [Hcs Hst].
    { rewrite Hnil. by intros [|?] ? ? ?. }
    { intros c. by rewrite Hnil. }
    apply (no_two_days_snoc _ _ Hcs). simpl. intros c' Hl Hd. by apply (Hst c').
  - apply seed_return in Hseed as ->. by intros ? ?; simplify_eq/=.
Qed.

Lemma buildCycles_no_two_days_witness :
  buildCyclesFromEvents 0 const_uuid repeated_end_log !! 0%nat
    ≫= (λ c, Some (c_type c)) = Some DAY ∧
  buildCyclesFromEvents 0 const_uuid repeated_end_log !! 1%nat
    ≫= (λ c, Some (c_type c)) = Some NIGHT.
Proof.
  split; [reflexivity|].
  destruct (buildCyclesFromEvents 0 const_uuid repeated_end_log !! 0%nat) as [c1|] eqn:H1;
    [|discriminate].
  destruct (buildCyclesFromEvents 0 const_uuid repeated_end_log !! 1%nat) as [c2|] eqn:H2;
    [|discriminate].
  simpl. f_equal.
  apply (buildCycles_no_two_days 0 const_uuid repeated_end_log 0 c1 c2 H1 H2).
  by inversion H1.
Defined.

(** X5: in every cycle of the result a start event, when there is one,
    carries the start timestamp and is the boundary that opens a cycle of
    that type ([sleep_start] for NIGHT, [sleep_end] for DAY), and an end
    event carries the end timestamp and is the boundary that closes it. *)
Theorem buildCycles_refs_agree (now_ : Z) (uuid_ : nat → string) (l : list event) :
  Forall refs_agree (buildCyclesFromEvents now_ uuid_ l).
Proof.
  unfold buildCyclesFromEvents.
  destruct (Builder.seed now_ l) as [st|cs] eqn:Hseed.
  - pose proof (seed_ref_agrees now_ l st Hseed) as Href.
    apply seed_scan in Hseed as [Hnil _].
    destruct (scan_refs_agree uuid_ l st) as [Hcs Hst]; [by rewrite Hnil|done|].
    apply Forall_app. split; [done|]. apply Forall_singleton. split; simpl; [|done].
    intros e He. by apply Hst.
  - apply seed_return in Hseed as ->. apply Forall_singleton. by split.
Qed.

Lemma last_boundary_type_boundary (l : list event) (t : event_type) :
  last_boundary_type l = Some t → t = sleep_start ∨ t = sleep_end.
Proof.
  unfold last_boundary_type. intros H.
  apply fmap_Some in H as (e & Hl & ->).
  assert (e ∈ List.filter is_boundary l) as He.
  { rewrite last_lookup in Hl. by eapply list_elem_of_lookup_2. }
  apply list_elem_of_In, filter_In in He as [_ Hb].
  unfold is_boundary in Hb. destruct (ev_type e); auto; done.
Qed.

Lemma last_cycle_type (now_ : Z) (uuid_ : nat → string) (l : list event) :
  c_type <$> last (buildCyclesFromEvents now_ uuid_ l) =
    Some (match last_boundary_type l with
          | Some sleep_start => NIGHT
          | _ => DAY
          end).
Proof.
  unfold buildCyclesFromEvents.
  destruct (Builder.seed now_ l) as [st|cs] eqn:Hseed.
  - unfold Builder.push. rewrite last_snoc. simpl. rewrite scan_phase.
    destruct (last_boundary_type l) as [t|] eqn:Hlast.
    { by destruct (last_boundary_type_boundary l t Hlast) as [-> | ->]. }
    (* no boundary event: the seed is DAY *)
    f_equal. revert Hseed. unfold Builder.seed.
    destruct (Builder.find_type sleep_start l) as [s|] eqn:Hfs.
    { exfalso. apply find_type_Some in Hfs as [Hin Ht].
      unfold last_boundary_type in Hlast. apply fmap_None, last_None in Hlast.
      assert (s ∈ List.filter is_boundary l) as Hs.
      { apply list_elem_of_In, filter_In. split; [by apply list_elem_of_In|].
        unfold is_boundary. by rewrite Ht. }
      rewrite Hlast in Hs. by apply elem_of_nil in Hs. }
    intros H. repeat case_match; by simplify_eq/=.
  - assert (l = []) as ->.
    { revert Hseed. unfold Builder.seed. intros H.
      repeat case_match; by simplify_eq/=. }
    by apply seed_return in Hseed as ->.
Qed.

(** X6: the last cycle of the result is a NIGHT cycle exactly when the
    last boundary event of the log is a [sleep_start]; with a [sleep_end]
    last, or no boundary event at all, it is a DAY cycle. *)
Theorem buildCycles_current_type (now_ : Z) (uuid_ : nat → string) (l : list event) :
  c_type <$> last (buildCyclesFromEvents now_ uuid_ l) =
    Some (match last_boundary_type l with
          | Some sleep_start => NIGHT
          | _ => DAY
          end).
Proof. apply last_cycle_type. Qed.

(** ** More on the event store *)

Global Instance by_ts_total : Total by_ts.
Proof.
  intros [k1 e1] [k2 e2]. unfold by_ts; simpl.
  destruct (Z.lt_trichotomy (ev_ts e1) (ev_ts e2)) as [?|[?|?]]; [by auto| |by auto].
  destruct (total String.le k1 k2); auto.
Qed.

Lemma Sorted_by_ts_sorted (l : list (string * event)) :
  Sorted by_ts l → sorted_by_ts l.*2 = true.
Proof.
  induction 1 as [|a l Hs IH Hhd]; [done|].
  destruct Hhd as [|b l' Hab]; [done|].
  change (bool_decide (ev_ts a.2 ≤ ev_ts b.2) && sorted_by_ts (b :: l').*2 = true).
  rewrite IH, andb_true_r. apply bool_decide_eq_true.
  destruct Hab as [?|[? _]]; lia.
Qed.

Lemma iterate_by_ts_sorted (store : gmap string event) (in_range : Z → bool) :
  sorted_by_ts (iterate_by_ts store in_range) = true.
Proof.
  unfold iterate_by_ts. apply Sorted_by_ts_sorted.
  apply (Sorted_merge_sort by_ts).
Qed.

(** X7: [getAllEvents] returns every stored record once, ordered ascending
    by [ts], and leaves the world as it is; its result is an input that
    [buildCyclesFromEvents] expects. *)
Theorem getAllEvents_sorted (w : world) :
  ∃ evs, getAllEvents w = (inr evs, w) ∧
         sorted_by_ts evs = true ∧
         evs ≡ₚ (map_to_list (events w)).*2.
Proof.
  eexists. split; [done|]. split; [apply iterate_by_ts_sorted|].
  rewrite iterate_by_ts_perm. f_equiv.
  induction (map_to_list (events w)) as [|a l IH]; [done|].
  rewrite filter_cons_True by done. by f_equiv.
Qed.

(** X8: for [startTs ≤ endTs], [eventsBetween] returns, ordered ascending
    by [ts], each stored record once whose [ts] lies between the two
    bounds, both included, and leaves the world as it is. *)
Theorem eventsBetween_sorted_inclusive (lo hi : Z) (w : world) :
  lo ≤ hi →
  ∃ evs, eventsBetween lo hi w = (inr evs, w) ∧
         sorted_by_ts evs = true ∧
         evs ≡ₚ stored_in_span (events w) lo hi ∧
         ∀ e, e ∈ evs ↔ ∃ k, events w !! k = Some e ∧ lo ≤ ev_ts e ≤ hi.
Proof.
  intros Hle. destruct (eventsBetween_in_span lo hi w Hle) as (evs & Hev & Hperm & Hin).
  exists evs. split_and!; [done| |done|done].
  revert Hev. unfold eventsBetween. rewrite bool_decide_eq_false_2 by lia. run.
  intros [= <-]. apply iterate_by_ts_sorted.
Qed.

Lemma eventsBetween_sorted_inclusive_witness :
  1 ≤ 2 ∧
  ∃ evs, eventsBetween 1 2 night_world = (inr evs, night_world) ∧
         sorted_by_ts evs = true ∧
         evs ≡ₚ stored_in_span (events night_world) 1 2 ∧
         ∀ e, e ∈ evs ↔ ∃ k, events night_world !! k = Some e ∧ 1 ≤ ev_ts e ≤ 2.
Proof.
  split; [lia|]. apply (eventsBetween_sorted_inclusive 1 2 night_world). lia.
Defined.

(** X9: an open cycle that starts after the current time has no
    statistics: the key range from its start to now is ill-formed and
    [calcCycleStats] throws, leaving the world as it is. *)
Theorem calcCycleStats_future_cycle (P : platform) (c : cycle) (w : world) (s : Z) :
  startTs c = Some s → endTs c = None → now P < s →
  calcCycleStats P c w = (inl DataError, w).
Proof.
  intros Hs He Hlt. apply (calcCycleStats_ill_formed P c w s); [done|].
  by rewrite He.
Qed.

Lemma calcCycleStats_future_cycle_witness :
  startTs future_night = Some 10 ∧ endTs future_night = None ∧ now offline < 10 ∧
  calcCycleStats offline future_night night_world = (inl DataError, night_world).
Proof.
  split; [reflexivity|]. split; [reflexivity|]. split; [simpl; lia|].
  apply (calcCycleStats_future_cycle offline future_night night_world 10);
    [reflexivity|reflexivity|simpl; lia].
Defined.

(** X10: [deleteEvent] never fails; afterwards the id has no record, the
    other records and the weather cache are as before, deleting an id
    that has no record changes nothing, and deleting twice is deleting
    once. *)
Theorem deleteEvent_total (i : string) (w : world) :
  ∃ w', deleteEvent i w = (inr tt, w') ∧
        events w' !! i = None ∧
        (∀ j, j ≠ i → events w' !! j = events w !! j) ∧
        weather_cache w' = weather_cache w ∧
        (events w !! i = None → w' = w) ∧
        deleteEvent i w' = (inr tt, w').
Proof.
  eexists. split; [done|]. simpl. split_and!.
  - apply lookup_delete_eq.
  - intros j Hj. by apply lookup_delete_ne.
  - done.
  - intros Hnone. destruct w. unfold with_events; simpl in *. by rewrite delete_id.
  - unfold deleteEvent, set_world, with_events; simpl. by rewrite delete_delete_eq.
Qed.

Section StoreInvariant.

Context (P : platform).

Lemma addEvent_events (ev : event) (w : world) :
  events (addEvent_write P ev w).2 = events w ∨
  ∃ rec k, ev_id rec = Some k ∧ events (addEvent_write P ev w).2 = <[k := rec]> (events w).
Proof.
  destruct (ymd (ev_ts ev)) as [e|dk] eqn:Hd.
  - left. destruct (attachWeather_total P ev w) as (ev' & w1 & Ha & He & Hev).
    unfold addEvent_write. run. rewrite Ha.
    assert (ev_ts ev' = ev_ts ev) as -> by (by destruct Hev as [->|[r ->]]).
    by rewrite Hd.
  - right. destruct (addEvent_puts P ev w dk Hd) as (ev' & w1 & _ & He & Hev & ->).
    eexists _, _. split; [|by rewrite <- He].
    simpl. by destruct Hev as [->|[r ->]].
Qed.

Lemma updateEvent_events (ev : event) (w : world) :
  events (updateEvent P ev w).2 = events w ∨
  ∃ rec k, ev_id rec = Some k ∧ events (updateEvent P ev w).2 = <[k := rec]> (events w).
Proof.
  destruct (attachWeather_total P ev w) as (ev' & w1 & Ha & He & Hev).
  assert (ev_ts ev' = ev_ts ev) as Hts by (by destruct Hev as [->|[r ->]]).
  assert (ev_id ev' = ev_id ev) as Hid by (by destruct Hev as [->|[r ->]]).
  destruct (ymd (ev_ts ev)) as [e|dk] eqn:Hd.
  - left. unfold updateEvent. run. by rewrite Ha, Hts, Hd.
  - destruct (ev_id ev) as [k|] eqn:Hk.
    + right. destruct (updateEvent_puts P ev w dk k Hd Hk) as (ev'' & w1' & _ & He' & Hev' & ->).
      eexists _, k. split; [|by rewrite <- He'].
      simpl. by destruct Hev' as [->|[r ->]].
    + left. unfold updateEvent, put_event. run. rewrite Ha, Hts, Hd. simpl.
      by rewrite Hid.
Qed.

End StoreInvariant.

Lemma keyed_insert (store : gmap string event) (k : string) (rec : event) :
  keyed store → ev_id rec = Some k → keyed (<[k := rec]> store).
Proof.
  intros Hk Hid j e Hj. apply lookup_insert_Some in Hj as [[<- <-]|[_ Hj]]; [done|].
  by apply Hk.
Qed.

(** X16: a record that [getDailyWeatherArrays] returns, from the cache or
    from the network, is the one a next call for the same day and place
    returns, without a request and whatever the platform then answers. *)
Theorem getDailyWeatherArrays_then_cached (P P' : platform) (date lat lon : Z)
    (w w' : world) (rec : weather_record) :
  getDailyWeatherArrays P date lat lon w = (inr rec, w') →
  getDailyWeatherArrays P' date lat lon w' = (inr rec, w').
Proof.
  unfold getDailyWeatherArrays at 1. run.
  destruct (ymd date) as [e|dk] eqn:Hd; simpl; [done|].
  destruct (weather_cache w !! cache_key dk lat lon) as [c|] eqn:Hc;
    [destruct (has_series c) eqn:Hs|].
  - intros [= <- <-]. by apply (getDaily_hit P' _ _ _ dk).
  - unfold fetchDay. run.
    destruct (fetch P _) as [[[] [b|]]|]; simpl; try done.
    intros [= <- <-]. apply (getDaily_hit P' _ _ _ dk); [done| |done].
    simpl. apply lookup_insert_eq.
  - unfold fetchDay. run.
    destruct (fetch P _) as [[[] [b|]]|]; simpl; try done.
    intros [= <- <-]. apply (getDaily_hit P' _ _ _ dk); [done| |done].
    simpl. apply lookup_insert_eq.
Qed.

Lemma getDailyWeatherArrays_then_cached_witness :
  getDailyWeatherArrays no_data 0 0 0 empty_world = (inr empty_day, world_after_no_data) ∧
  getDailyWeatherArrays offline 0 0 0 world_after_no_data
    = (inr empty_day, world_after_no_data).
Proof.
  split; [reflexivity|].
  apply (getDailyWeatherArrays_then_cached no_data offline 0 0 0 empty_world).
  reflexivity.
Defined.

(** X17: when [getDailyWeatherArrays] throws, it has stored nothing: the
    cache is as before; and for a valid date the one request it made is
    made again by the next call. *)
Theorem getDailyWeatherArrays_failure_not_cached (P P' : platform) (date lat lon : Z)
    (dk : string) (w : world) (e : exn) :
  ymd date = inr dk →
  (getDailyWeatherArrays P date lat lon w).1 = inl e →
  weather_cache (getDailyWeatherArrays P date lat lon w).2 = weather_cache w ∧
  requests (getDailyWeatherArrays P date lat lon w).2
    = requests w ++ [weather_url dk lat lon] ∧
  requests (getDailyWeatherArrays P' date lat lon
              (getDailyWeatherArrays P date lat lon w).2).2
    = (requests w ++ [weather_url dk lat lon]) ++ [weather_url dk lat lon].
Proof.
  intros Hd Hfail.
  assert (weather_cache w !! cache_key dk lat lon = None ∨
          ∃ c, weather_cache w !! cache_key dk lat lon = Some c ∧ has_series c = false)
    as Hmiss.
  { destruct (weather_cache w !! cache_key dk lat lon) as [c|] eqn:Hc; [|by left].
    destruct (has_series c) eqn:Hs; [|by eauto].
    rewrite (getDaily_hit P _ _ _ dk w c) in Hfail by done. done. }
  rewrite (getDaily_miss P _ _ _ dk w Hd Hmiss) in *.
  assert (weather_cache (fetchDay P dk (cache_key dk lat lon) lat lon w).2
          = weather_cache w) as Hcache.
  { revert Hfail. unfold fetchDay. run.
    destruct (fetch P _) as [[[] [b|]]|]; simpl; done. }
  split; [done|]. split; [apply fetchDay_requests|].
  rewrite (getDaily_miss P' _ _ _ dk _ Hd) by (by rewrite Hcache).
  by rewrite !fetchDay_requests.
Qed.

Lemma getDailyWeatherArrays_failure_not_cached_witness :
  ymd 0 = inr "1970-01-01" ∧
  (getDailyWeatherArrays offline 0 0 0 empty_world).1 = inl NetworkError ∧
  weather_cache (getDailyWeatherArrays offline 0 0 0 empty_world).2
    = weather_cache empty_world.
Proof.
  split; [reflexivity|]. split; [reflexivity|].
  by destruct (getDailyWeatherArrays_failure_not_cached offline offline 0 0 0
                 "1970-01-01" empty_world NetworkError eq_refl eq_refl) as [? _].
Defined.

(** X18: for a window of [withinMinutes ≥ 0], [hasRecentWakeEvent] is
    true exactly when a stored [wake] event has its [ts] between
    [now - withinMinutes * 60000] and [now], both included; it leaves the
    world as it is. *)
Theorem hasRecentWakeEvent_spec (P : platform) (withinMinutes : Z) (w : world) :
  0 ≤ withinMinutes →
  ∃ b, hasRecentWakeEvent P withinMinutes w = (inr b, w) ∧
       (b = true ↔
        ∃ e, in_span (events w) (now P - withinMinutes * 60000) (now P) e ∧
             ev_type e = wake).
Proof.
  intros Hm. unfold hasRecentWakeEvent.
  rewrite bool_decide_eq_false_2 by lia. run.
  eexists. split; [done|]. rewrite existsb_has_type.
  setoid_rewrite elem_of_iterate_by_ts. unfold in_span.
  setoid_rewrite andb_true_iff. setoid_rewrite bool_decide_eq_true.
  replace (now P - withinMinutes * 60 * 1000) with (now P - withinMinutes * 60000) by lia.
  naive_solver.
Qed.

Lemma hasRecentWakeEvent_spec_witness :
  0 ≤ 10 ∧
  ∃ b, hasRecentWakeEvent offline 10 night_world = (inr b, night_world) ∧
       (b = true ↔
        ∃ e, in_span (events night_world) (now offline - 10 * 60000) (now offline) e ∧
             ev_type e = wake).
Proof.
  split; [lia|]. apply (hasRecentWakeEvent_spec offline 10 night_world). lia.
Defined.

(** ** The page state *)

Ltac run_app :=
  unfold app_bind, app_ret, on_world, set_cycles, set_index; simpl.

Lemma refreshCycles_spec (P : platform) (a : app) :
  refreshCycles P a =
    (inr (buildCyclesFromEvents (now P) (uuid P) (stored_log (app_world a))),
     {| app_world := app_world a; app_settings := app_settings a;
        currentCycleIdx := currentCycleIdx a;
        state_cycles := buildCyclesFromEvents (now P) (uuid P) (stored_log (app_world a)) |}).
Proof. reflexivity. Qed.

Lemma buildCycles_last_open (now_ : Z) (uuid_ : nat → string) (l : list event) :
  ∃ c, last (buildCyclesFromEvents now_ uuid_ l) = Some c ∧ endTs c = None.
Proof.
  destruct (buildCycles_only_last_open now_ uuid_ l) as [Hne Hlast].
  destruct (last (buildCyclesFromEvents now_ uuid_ l)) as [c|] eqn:Hl.
  - exists c. split; [done|]. rewrite last_lookup in Hl.
    apply (Hlast _ _ Hl). destruct (buildCyclesFromEvents now_ uuid_ l); [done|].
    simpl. lia.
  - by apply last_None in Hl.
Qed.

Lemma night_test (P : platform) (a : app) :
  ∃ b a', isCurrentlyInNightCycle P a = (inr b, a') ∧
          app_world a' = app_world a ∧ currentCycleIdx a' = currentCycleIdx a ∧
          (b = true ↔ last_boundary_type (stored_log (app_world a)) = Some sleep_start).
Proof.
  unfold isCurrentlyInNightCycle, app_bind. rewrite refreshCycles_spec.
  destruct (buildCycles_last_open (now P) (uuid P) (stored_log (app_world a)))
    as (c & Hlast & Hopen).
  pose proof (last_cycle_type (now P) (uuid P) (stored_log (app_world a))) as Hty.
  rewrite Hlast in *. simpl in Hty. injection Hty as Hty.
  rewrite Hopen. simpl.
  destruct (last_boundary_type (stored_log (app_world a))) as [t|] eqn:Hl.
  - destruct (last_boundary_type_boundary _ t Hl) as [-> | ->]; rewrite Hty; simpl;
      eexists _, _; (split; [reflexivity|]); simpl; by split_and!.
  - rewrite Hty. simpl. eexists _, _. (split; [reflexivity|]); simpl. by split_and!.
Qed.

(** X19: [isCurrentlyInNightCycle] answers [true] exactly when the last
    boundary event of the stored log, in the order of [ts], is a
    [sleep_start]; it leaves the stores and the selected index as they
    are. *)
Theorem isCurrentlyInNightCycle_spec (P : platform) (a : app) :
  ∃ b a', isCurrentlyInNightCycle P a = (inr b, a') ∧
          app_world a' = app_world a ∧ currentCycleIdx a' = currentCycleIdx a ∧
          (b = true ↔ last_boundary_type (stored_log (app_world a)) = Some sleep_start).
Proof. apply night_test. Qed.

Lemma calcCycleStats_world (P : platform) (c : cycle) (w : world) :
  (calcCycleStats P c w).2 = w.
Proof.
  unfold calcCycleStats, eventsBetween. run.
  destruct (startTs c); simpl; [|done]. by case_bool_decide.
Qed.

Lemma renderCycle_state (P : platform) (a : app) :
  app_world (renderCycle P a).2 = app_world a ∧
  state_cycles (renderCycle P a).2
    = buildCyclesFromEvents (now P) (uuid P) (stored_log (app_world a)) ∧
  0 ≤ currentCycleIdx (renderCycle P a).2
    < Z.of_nat (length (state_cycles (renderCycle P a).2)) ∧
  (0 ≤ currentCycleIdx a
     < Z.of_nat (length (buildCyclesFromEvents (now P) (uuid P) (stored_log (app_world a)))) →
   currentCycleIdx (renderCycle P a).2 = currentCycleIdx a).
Proof.
  unfold renderCycle, app_bind. rewrite refreshCycles_spec.
  destruct (buildCycles_only_last_open (now P) (uuid P) (stored_log (app_world a)))
    as [Hne _].
  destruct (buildCyclesFromEvents (now P) (uuid P) (stored_log (app_world a)))
    as [|c0 cs] eqn:Hb; [done|].
  run_app.
  set (idx := clamp_index (currentCycleIdx a) (S (length cs))).
  assert (0 ≤ idx < Z.of_nat (S (length cs))) as Hidx.
  { unfold idx, clamp_index. repeat case_bool_decide; lia. }
  assert (0 ≤ currentCycleIdx a < Z.of_nat (S (length cs)) → idx = currentCycleIdx a) as Hkeep.
  { intros ?. unfold idx, clamp_index. repeat case_bool_decide; lia. }
  destruct ((c0 :: cs) !! Z.to_nat idx) as [c|] eqn:Hc; simpl.
  - pose proof (calcCycleStats_world P c (app_world a)) as Hw.
    destruct (calcCycleStats P c (app_world a)) as [[e|st] w']; simpl in *; subst w';
      (split; [done|]; split; [done|]; by split).
  - split; [done|]; split; [done|]; by split.
Qed.

(** X20: whatever its outcome, [renderCycle] leaves the stores as they
    are, caches the cycles of the stored log, and leaves the selected
    index inside that list; an index already inside is kept. *)
Theorem renderCycle_clamps (P : platform) (a : app) :
  app_world (renderCycle P a).2 = app_world a ∧
  state_cycles (renderCycle P a).2
    = buildCyclesFromEvents (now P) (uuid P) (stored_log (app_world a)) ∧
  0 ≤ currentCycleIdx (renderCycle P a).2
    < Z.of_nat (length (state_cycles (renderCycle P a).2)) ∧
  (0 ≤ currentCycleIdx a
     < Z.of_nat (length (buildCyclesFromEvents (now P) (uuid P) (stored_log (app_world a)))) →
   currentCycleIdx (renderCycle P a).2 = currentCycleIdx a).
Proof. apply renderCycle_state. Qed.

Lemma renderCycle_world (P : platform) (a : app) :
  app_world (renderCycle P a).2 = app_world a.
Proof. apply renderCycle_state. Qed.

(** [addEvent] is its write followed, when the write returns, by the
    redraw. *)
Lemma addEvent_unfold (P P' : platform) (ev : event) (a : app) :
  addEvent P P' ev a =
    match (addEvent_write P ev (app_world a)).1 with
    | inr _ => renderCycle P' (with_world a (addEvent_write P ev (app_world a)).2)
    | inl e => (inl e, with_world a (addEvent_write P ev (app_world a)).2)
    end.
Proof.
  unfold addEvent, app_bind, on_world, with_world.
  by destruct (addEvent_write P ev (app_world a)) as [[e|[]] w'].
Qed.

(** The redraw writes to no store: the stores after [addEvent] are those
    after its write. *)
Lemma addEvent_world (P P' : platform) (ev : event) (a : app) :
  app_world (addEvent P P' ev a).2 = (addEvent_write P ev (app_world a)).2.
Proof.
  rewrite addEvent_unfold.
  destruct (addEvent_write P ev (app_world a)) as [[e|[]] w']; simpl; [done|].
  by rewrite renderCycle_world.
Qed.

Lemma write_then_render (P' P'' : platform) (a : app) (dk : string) (t : event_type) :
  ymd (now P') = inr dk →
  ∃ rec,
    events (app_world
              (app_bind (addEvent P' P'' (new_event t (now P')))
                 (λ _, app_ret true) a).2)
      = <[uuid P' 0%nat := rec]> (events (app_world a)) ∧
    ev_id rec = Some (uuid P' 0%nat) ∧ ev_type rec = t ∧ ev_ts rec = now P'.
Proof.
  intros Hd.
  destruct (addEvent_puts P' (new_event t (now P')) (app_world a) dk Hd)
    as (ev' & w1 & Ha & He & Hev & Hput).
  exists (added_record (uuid P' 0%nat) dk ev').
  split; [|by destruct Hev as [->|[r ->]]].
  pose proof (addEvent_world P' P'' (new_event t (now P')) a) as Hw.
  unfold app_bind.
  destruct (addEvent P' P'' (new_event t (now P')) a) as [[e|[]] a2]; simpl in *;
    rewrite Hw, Hput; simpl; by rewrite He.
Qed.

Lemma startHandler_after_test (P P' P'' : platform) (a a' : app) (b : bool) :
  isCurrentlyInNightCycle P a = (inr b, a') →
  startHandler P P' P'' a =
    if b then (inr false, a')
    else app_bind (addEvent P' P'' (new_event sleep_start (now P')))
           (λ _, app_ret true) a'.
Proof. intros H. unfold startHandler. unfold app_bind at 1. rewrite H. by destruct b. Qed.

Lemma endHandler_after_test (P P' P'' : platform) (a a' : app) (b : bool) :
  isCurrentlyInNightCycle P a = (inr b, a') →
  endHandler P P' P'' a =
    if b then app_bind (addEvent P' P'' (new_event sleep_end (now P')))
                (λ _, app_ret true) a'
    else (inr false, a').
Proof. intros H. unfold endHandler. unfold app_bind at 1. rewrite H. by destruct b. Qed.

(** X21: the two sleep buttons write only in the right phase (the current
    time being a valid date).  When the last boundary event of the log is
    a [sleep_start], [startHandler] alerts and writes nothing, and
    [endHandler] adds a [sleep_end] at the current time; otherwise
    [endHandler] alerts and writes nothing, and [startHandler] adds a
    [sleep_start].  The new event is stored under the value of [uuid()],
    and no other record changes. *)
Theorem sleep_buttons_guarded (P P' P'' : platform) (a : app) (dk : string) :
  ymd (now P') = inr dk →
  (last_boundary_type (stored_log (app_world a)) = Some sleep_start →
     (startHandler P P' P'' a).1 = inr false ∧
     events (app_world (startHandler P P' P'' a).2) = events (app_world a) ∧
     ∃ rec, events (app_world (endHandler P P' P'' a).2)
              = <[uuid P' 0%nat := rec]> (events (app_world a)) ∧
            ev_id rec = Some (uuid P' 0%nat) ∧ ev_type rec = sleep_end ∧
            ev_ts rec = now P') ∧
  (last_boundary_type (stored_log (app_world a)) ≠ Some sleep_start →
     (endHandler P P' P'' a).1 = inr false ∧
     events (app_world (endHandler P P' P'' a).2) = events (app_world a) ∧
     ∃ rec, events (app_world (startHandler P P' P'' a).2)
              = <[uuid P' 0%nat := rec]> (events (app_world a)) ∧
            ev_id rec = Some (uuid P' 0%nat) ∧ ev_type rec = sleep_start ∧
            ev_ts rec = now P').
Proof.
  intros Hd.
  destruct (night_test P a) as (b & a' & Hn & Hw & _ & Hb).
  split; intros Hlast.
  - assert (b = true) as -> by (by apply Hb).
    rewrite (startHandler_after_test P P' P'' a a' true Hn).
    rewrite (endHandler_after_test P P' P'' a a' true Hn).
    split; [done|]. split; [by rewrite <- Hw|].
    destruct (write_then_render P' P'' a' dk sleep_end Hd) as (rec & He & Hrec).
    exists rec. by rewrite He, Hw.
  - assert (b = false) as ->.
    { destruct b; [|done]. by destruct Hlast; apply Hb. }
    rewrite (startHandler_after_test P P' P'' a a' false Hn).
    rewrite (endHandler_after_test P P' P'' a a' false Hn).
    split; [done|]. split; [by rewrite <- Hw|].
    destruct (write_then_render P' P'' a' dk sleep_start Hd) as (rec & He & Hrec).
    exists rec. by rewrite He, Hw.
Qed.

Lemma sleep_buttons_guarded_witness :
  ymd (now offline) = inr "1970-01-01" ∧
  last_boundary_type (stored_log (app_world night_app)) = Some sleep_start ∧
  (startHandler offline offline offline night_app).1 = inr false ∧
  events (app_world (startHandler offline offline offline night_app).2)
    = events (app_world night_app).
Proof.
  split; [reflexivity|]. split; [by vm_compute|].
  destruct (sleep_buttons_guarded offline offline offline night_app "1970-01-01" eq_refl)
    as [Hnight _].
  destruct Hnight as (H1 & H2 & _); [by vm_compute|]. by split.
Defined.

(** ** Navigation *)

Lemma step_same_shape (u u' : nat → string) (st st' : Builder.locals) (e : event) :
  same_shape st st' → same_shape (Builder.step u st e) (Builder.step u' st' e).
Proof.
  intros (Hlen & Hp & Hs). unfold Builder.step, Builder.push, same_shape.
  rewrite <- Hp, <- Hs.
  destruct (ev_type e); try done; destruct (Builder.cur_phase st);
    try destruct (Builder.cur_startTs st); simpl;
    rewrite ?length_app; simpl; by rewrite ?Hlen.
Qed.

Lemma scan_same_shape (u u' : nat → string) (l : list event) (st st' : Builder.locals) :
  same_shape st st' → same_shape (Builder.scan u st l) (Builder.scan u' st' l).
Proof.
  revert st st'. induction l as [|e l IH]; intros st st' H; [done|].
  simpl. by apply IH, step_same_shape.
Qed.

(** The number of cycles depends on the log alone. *)
Lemma buildCycles_length (now_ now' : Z) (u u' : nat → string) (l : list event) :
  length (buildCyclesFromEvents now_ u l) = length (buildCyclesFromEvents now' u' l).
Proof.
  assert (∀ st, length (Builder.cycles (Builder.scan u st l))
                = length (Builder.cycles (Builder.scan u' st l))) as Hscan.
  { intros st. by apply scan_same_shape. }
  unfold buildCyclesFromEvents, Builder.seed.
  destruct (Builder.find_type sleep_start l) as [s|];
    destruct (Builder.find_type sleep_end l) as [e|]; try case_bool_decide;
    unfold Builder.push; rewrite ?length_app, ?Hscan; try done.
  destruct l; [done|]. by rewrite !length_app, Hscan.
Qed.

(** X22: on a page in step with the store (the cached cycle list has the
    length of the current one and the selected index lies inside it),
    Prev moves the selection one cycle back and stays at the first,
    Next moves it one cycle forward and stays at the last, and Today
    selects the last cycle. *)
Theorem nav_buttons (P0 P : platform) (a : app) :
  length (state_cycles a)
    = length (buildCyclesFromEvents (now P) (uuid P) (stored_log (app_world a))) →
  0 ≤ currentCycleIdx a < Z.of_nat (length (state_cycles a)) →
  currentCycleIdx (btnPrev P a).2 = Z.max 0 (currentCycleIdx a - 1) ∧
  currentCycleIdx (btnNext P a).2
    = Z.min (Z.of_nat (length (state_cycles a)) - 1) (currentCycleIdx a + 1) ∧
  currentCycleIdx (btnToday P0 P a).2 = Z.of_nat (length (state_cycles a)) - 1.
Proof.
  intros Hsync Hidx. split_and!.
  - unfold btnPrev, app_bind at 1. unfold set_index at 1.
    set (a1 := {| app_world := _ |}).
    destruct (renderCycle_state P a1) as (_ & _ & _ & Hkeep).
    rewrite Hkeep; [done|]. unfold a1; simpl. lia.
  - unfold btnNext, app_bind at 1. unfold set_index at 1.
    set (a1 := {| app_world := _ |}).
    destruct (renderCycle_state P a1) as (_ & _ & _ & Hkeep).
    rewrite Hkeep; [done|]. unfold a1; simpl. lia.
  - unfold btnToday, app_bind at 1. rewrite refreshCycles_spec.
    unfold app_bind at 1. unfold set_index at 1.
    set (a1 := {| app_world := _ |}).
    destruct (renderCycle_state P a1) as (_ & _ & _ & Hkeep).
    rewrite Hkeep; unfold a1; simpl.
    + rewrite Hsync.
      rewrite (buildCycles_length (now P0) (now P) (uuid P0) (uuid P)). lia.
    + rewrite (buildCycles_length (now P0) (now P) (uuid P0) (uuid P)). lia.
Qed.

Lemma nav_buttons_witness :
  length (state_cycles (renderCycle offline morning_app).2)
    = length (buildCyclesFromEvents (now offline) (uuid offline)
                (stored_log (app_world (renderCycle offline morning_app).2))) ∧
  0 ≤ currentCycleIdx (renderCycle offline morning_app).2
    < Z.of_nat (length (state_cycles (renderCycle offline morning_app).2)) ∧
  currentCycleIdx (btnNext offline (renderCycle offline morning_app).2).2 = 1 ∧
  currentCycleIdx (btnToday offline offline (renderCycle offline morning_app).2).2 = 2.
Proof.
  split; [by vm_compute|]. split; [by vm_compute|].
  destruct (nav_buttons offline offline (renderCycle offline morning_app).2)
    as (_ & Hnext & Htoday); [by vm_compute..|].
  rewrite Hnext, Htoday. by vm_compute.
Defined.

(** ** Export and import *)

Lemma put_each_events (l : list event) (a : app) :
  Forall (λ e, is_Some (ev_id e)) l →
  (put_each (λ e, on_world (put_event e)) l a).1 = inr tt ∧
  events (app_world (put_each (λ e, on_world (put_event e)) l a).2)
    = fold_left upsert l (events (app_world a)).
Proof.
  revert a. induction l as [|e l IH]; intros a Hl; [done|].
  apply Forall_cons in Hl as [[k Hk] Hl].
  assert (∃ a1, on_world (put_event e) a = (inr tt, a1) ∧
                events (app_world a1) = upsert (events (app_world a)) e) as (a1 & Ha1 & He1).
  { eexists. unfold on_world, put_event, upsert. rewrite Hk. by split. }
  change (put_each (λ e, on_world (put_event e)) (e :: l) a)
    with (app_bind (on_world (put_event e))
            (λ _, put_each (λ e, on_world (put_event e)) l) a).
  unfold app_bind. rewrite Ha1.
  destruct (IH a1 Hl) as [H1 H2]. split; [done|]. rewrite H2. simpl. by rewrite He1.
Qed.

(** A list of puts that leave the events alone leaves them alone. *)
Lemma put_each_keeps_events {A} (put : A → App unit) (xs : list A) (a : app) :
  (∀ x b, events (app_world (put x b).2) = events (app_world b)) →
  events (app_world (put_each put xs a).2) = events (app_world a).
Proof.
  intros Hput. revert a. induction xs as [|x xs IH]; intros a; [done|].
  simpl. unfold app_bind. specialize (Hput x a).
  destruct (put x a) as [[e|[]] a1]; simpl in *; [done|]. by rewrite IH.
Qed.

Lemma put_setting_keeps_events (x : setting) (b : app) :
  events (app_world (put_setting x b).2) = events (app_world b).
Proof. unfold put_setting. by destruct (setting_key x). Qed.

Lemma fold_upsert (L : list (string * event)) (m0 : gmap string event) :
  NoDup L.*1 → (∀ k e, (k, e) ∈ L → ev_id e = Some k) →
  fold_left upsert L.*2 m0 = list_to_map L ∪ m0.
Proof.
  revert m0. induction L as [|[k e] L IH]; intros m0 Hnd Hid; simpl.
  - by rewrite (left_id_L ∅ (∪)).
  - apply NoDup_cons in Hnd as [Hk Hnd].
    unfold upsert at 2. rewrite (Hid k e) by set_solver.
    rewrite IH; [|done|intros; apply Hid; set_solver].
    rewrite <- insert_union_l. symmetry. apply insert_union_r.
    by apply not_elem_of_list_to_map_1.
Qed.

Lemma getAll_upsert (m m0 : gmap string event) :
  keyed m → fold_left upsert (getAll m) m0 = m ∪ m0.
Proof.
  intros Hk. unfold getAll.
  assert (merge_sort by_key (map_to_list m) ≡ₚ map_to_list m) as Hperm
    by apply merge_sort_Permutation.
  rewrite fold_upsert.
  - rewrite (list_to_map_proper _ (map_to_list m)); [by rewrite list_to_map_to_list| |done].
    rewrite Hperm. apply NoDup_fst_map_to_list.
  - rewrite Hperm. apply NoDup_fst_map_to_list.
  - intros k e Hin. rewrite Hperm in Hin. apply elem_of_map_to_list in Hin. by apply Hk.
Qed.

(** X23: importing what [exportJSON] collected from a store whose records
    lie under their own ids puts every exported event back under its id:
    afterwards the events are the exported ones together with those
    records of the importing store whose ids the export does not have. In
    an empty store the exported events are reproduced exactly. *)
Theorem import_after_export (P : platform) (a a0 : app) (snap : snapshot) :
  keyed (events (app_world a)) →
  (exportJSON a).1 = inr snap →
  events (app_world (importJSON P (Some snap) a0).2)
    = events (app_world a) ∪ events (app_world a0) ∧
  (events (app_world a0) = ∅ →
   events (app_world (importJSON P (Some snap) a0).2) = events (app_world a)).
Proof.
  intros Hk Hex. injection Hex as <-.
  assert (events (app_world (importJSON P
            (Some {| snap_events := Some (getAll (events (app_world a)));
                     snap_settings := Some (getAll (app_settings a));
                     snap_weather_cache := Some (getAll (weather_cache (app_world a))) |})
            a0).2)
          = events (app_world a) ∪ events (app_world a0)) as Hres.
  { unfold importJSON; simpl.
    assert (Forall (λ e, is_Some (ev_id e)) (getAll (events (app_world a)))) as Hids.
    { apply Forall_forall. intros e He. unfold getAll in He.
      apply list_elem_of_fmap in He as ([k e1] & -> & He).
      rewrite merge_sort_Permutation in He. apply elem_of_map_to_list in He.
      exists k. by apply Hk. }
    destruct (put_each_events _ a0 Hids) as [Hok Hev].
    rewrite getAll_upsert in Hev by done.
    unfold app_bind at 1.
    destruct (put_each _ (getAll (events (app_world a))) a0) as [[e|[]] a1];
      simpl in *; [done|].
    rewrite <- Hev.
    unfold app_bind at 1.
    pose proof (put_each_keeps_events put_setting (getAll (app_settings a)) a1
                  put_setting_keeps_events) as Hs.
    destruct (put_each put_setting _ a1) as [[e|[]] a2]; simpl in *; [done|].
    rewrite <- Hs.
    unfold app_bind at 1.
    assert (∀ x b, events (app_world (put_weather x b).2) = events (app_world b))
      as Hput by done.
    pose proof (put_each_keeps_events put_weather
                  (getAll (weather_cache (app_world a))) a2 Hput) as Hwc.
    destruct (put_each put_weather _ a2) as [[e|[]] a3]; simpl in *; [done|].
    rewrite <- Hwc. by rewrite renderCycle_world. }
  split; [done|]. intros Hempty. rewrite Hres, Hempty. apply (right_id_L ∅ (∪)).
Qed.

Lemma import_after_export_witness :
  keyed (events (app_world night_app)) ∧
  events (app_world blank_app) = ∅ ∧
  events (app_world
            (importJSON offline
               (Some {| snap_events := Some (getAll (events (app_world night_app)));
                        snap_settings := Some (getAll (app_settings night_app));
                        snap_weather_cache :=
                          Some (getAll (weather_cache (app_world night_app))) |})
               blank_app).2)
    = events (app_world night_app).
Proof.
  assert (keyed (events (app_world night_app))) as Hk.
  { intros k e. simpl. rewrite !lookup_insert_Some, lookup_empty.
    intros [[<- <-]|[_ [[<- <-]|[_ [[<- <-]|[_ ?]]]]]]; done. }
  split; [done|]. split; [reflexivity|].
  by apply (import_after_export offline night_app blank_app _ Hk eq_refl).
Defined.

(** A record without id stops the import with a [DataError]; the records
    before it are stored. *)
Example import_stops_at_missing_id :
  (importJSON offline
     (Some {| snap_events := Some [plain_event "a" water 1; new_event water 2;
                                   plain_event "c" water 3];
              snap_settings := None; snap_weather_cache := None |}) blank_app).1
    = inl DataError ∧
  dom (events (app_world
     (importJSON offline
        (Some {| snap_events := Some [plain_event "a" water 1; new_event water 2;
                                      plain_event "c" water 3];
                 snap_settings := None; snap_weather_cache := None |}) blank_app).2))
    = {[ "a" ]}.
Proof. split; [reflexivity|]. by vm_compute. Qed.

(** ** Extrema of a fetched day *)

Lemma math_min_from (xs : list sample) (a : Q) :
  ∃ m, fold_left (λ acc x,
         match acc with
         | Finite a => if Qle_bool a (sample_value x) then Finite a
                       else Finite (sample_value x)
         | PosInfinity => Finite (sample_value x)
         | NegInfinity => NegInfinity
         end) xs (Finite a) = Finite m ∧
       (m <= a)%Q ∧ Forall (λ x, (m <= sample_value x)%Q) xs ∧
       (m = a ∨ ∃ x, x ∈ xs ∧ m = sample_value x).
Proof.
  revert a. induction xs as [|x xs IH]; intros a; simpl.
  - exists a. split; [done|]. split; [apply Qle_refl|]. split; [done|by left].
  - destruct (Qle_bool a (sample_value x)) eqn:Hle.
    + apply Qle_bool_iff in Hle.
      destruct (IH a) as (m & Hm & Hma & Hall & Hwho). exists m.
      split; [done|]. split; [done|]. split.
      * constructor; [by eapply Qle_trans|done].
      * destruct Hwho as [->|(y & Hy & ->)]; [by left|right]. exists y.
        split; [by apply elem_of_cons; right|done].
    + assert (sample_value x <= a)%Q as Hxa.
      { apply Qlt_le_weak, Qnot_le_lt. intros H. apply Qle_bool_iff in H. congruence. }
      destruct (IH (sample_value x)) as (m & Hm & Hmx & Hall & Hwho). exists m.
      split; [done|]. split; [by eapply Qle_trans|]. split; [by constructor|].
      right. destruct Hwho as [->|(y & Hy & ->)]; [exists x|exists y];
        (split; [apply elem_of_cons; by auto|done]).
Qed.

Lemma math_max_from (xs : list sample) (a : Q) :
  ∃ m, fold_left (λ acc x,
         match acc with
         | Finite a => if Qle_bool (sample_value x) a then Finite a
                       else Finite (sample_value x)
         | NegInfinity => Finite (sample_value x)
         | PosInfinity => PosInfinity
         end) xs (Finite a) = Finite m ∧
       (a <= m)%Q ∧ Forall (λ x, (sample_value x <= m)%Q) xs ∧
       (m = a ∨ ∃ x, x ∈ xs ∧ m = sample_value x).
Proof.
  revert a. induction xs as [|x xs IH]; intros a; simpl.
  - exists a. split; [done|]. split; [apply Qle_refl|]. split; [done|by left].
  - destruct (Qle_bool (sample_value x) a) eqn:Hle.
    + apply Qle_bool_iff in Hle.
      destruct (IH a) as (m & Hm & Hma & Hall & Hwho). exists m.
      split; [done|]. split; [done|]. split.
      * constructor; [by eapply Qle_trans|done].
      * destruct Hwho as [->|(y & Hy & ->)]; [by left|right]. exists y.
        split; [by apply elem_of_cons; right|done].
    + assert (a <= sample_value x)%Q as Hxa.
      { apply Qlt_le_weak, Qnot_le_lt. intros H. apply Qle_bool_iff in H. congruence. }
      destruct (IH (sample_value x)) as (m & Hm & Hmx & Hall & Hwho). exists m.
      split; [done|]. split; [by eapply Qle_trans|]. split; [by constructor|].
      right. destruct Hwho as [->|(y & Hy & ->)]; [exists x|exists y];
        (split; [apply elem_of_cons; by auto|done]).
Qed.

Lemma math_extrema (xs : list sample) : extrema_of (math_min xs) (math_max xs) xs.
Proof.
  destruct xs as [|x xs]; [done|]. unfold extrema_of, math_min, math_max. simpl.
  destruct (math_min_from xs (sample_value x)) as (l & -> & Hlx & Hl & Hwl).
  destruct (math_max_from xs (sample_value x)) as (h & -> & Hxh & Hh & Hwh).
  exists l, h. split; [done|]. split; [done|]. split_and!.
  - constructor; [done|]. rewrite Forall_forall in Hl, Hh. apply Forall_forall. auto.
  - destruct Hwl as [->|(y & Hy & ->)]; [exists x|exists y];
      (split; [apply elem_of_cons; by auto|done]).
  - destruct Hwh as [->|(y & Hy & ->)]; [exists x|exists y];
      (split; [apply elem_of_cons; by auto|done]).
Qed.

(** X24: a record that [getDailyWeatherArrays] fetches (the key had no
    record) carries the three series and, for temperature and for
    humidity, the least and the greatest value of its series, a [null]
    entry counting as 0; for an empty series they are [Infinity] and
    [-Infinity].  The record is stored under its key. *)
Theorem fetched_record_extrema (P : platform) (date lat lon : Z) (dk : string)
    (w w' : world) (rec : weather_record) :
  ymd date = inr dk →
  weather_cache w !! cache_key dk lat lon = None →
  getDailyWeatherArrays P date lat lon w = (inr rec, w') →
  ∃ hs tl hl, hours rec = Some hs ∧ temps rec = Some tl ∧ hums rec = Some hl ∧
              extrema_of (minTemp rec) (maxTemp rec) tl ∧
              extrema_of (minHum rec) (maxHum rec) hl ∧
              wr_key rec = cache_key dk lat lon ∧
              weather_cache w' !! cache_key dk lat lon = Some rec.
Proof.
  intros Hd Hc. rewrite (getDaily_miss P _ _ _ dk w Hd) by auto.
  unfold fetchDay. run.
  destruct (fetch P _) as [[[] [b|]]|]; simpl; try done.
  intros [= <- <-]. simpl. eexists _, _, _.
  split_and!; try done; try apply math_extrema. apply lookup_insert_eq.
Qed.

Lemma fetched_record_extrema_witness :
  ymd 0 = inr "1970-01-01" ∧
  weather_cache empty_world !! cache_key "1970-01-01" 0 0 = None ∧
  match (getDailyWeatherArrays two_hours 0 0 0 empty_world).1 with
  | inr rec => minTemp rec = Finite 0 ∧ maxTemp rec = Finite 5 ∧
               extrema_of (minTemp rec) (maxTemp rec) [Some 5%Q; None]
  | inl _ => False
  end.
Proof.
  split; [reflexivity|]. split; [reflexivity|].
  destruct (getDailyWeatherArrays two_hours 0 0 0 empty_world) as [[e|rec] w'] eqn:Hcall;
    [by vm_compute in Hcall|].
  destruct (fetched_record_extrema two_hours 0 0 0 "1970-01-01" empty_world w' rec
              eq_refl eq_refl Hcall) as (hs & tl & hl & _ & Ht & _ & Hex & _).
  vm_compute in Hcall. injection Hcall as <- <-. simpl in *.
  injection Ht as <-. by split_and!.
Defined.

(** ** The prompts of the quick buttons *)

Lemma is_digit_cases (a : ascii) :
  is_digit a = true →
  a ∈ ["0"; "1"; "2"; "3"; "4"; "5"; "6"; "7"; "8"; "9"]%char.
Proof.
  destruct a as [b0 b1 b2 b3 b4 b5 b6 b7].
  destruct b0, b1, b2, b3, b4, b5, b6, b7; intros H; vm_compute in H;
    try discriminate H; clear H; repeat constructor.
Qed.

Lemma all_digits_only_digits (s : string) : all_digits (only_digits s) = true.
Proof.
  induction s as [|a s IH]; [done|]. simpl.
  destruct (is_digit a) eqn:Ha; [|done]. simpl. by rewrite Ha, IH.
Qed.

Lemma parse_digits_all_digits (d : string) (acc : Z) :
  all_digits d = true → 0 ≤ acc →
  ∃ n, parse_digits 10 d (Some acc) = Some n ∧ 0 ≤ n.
Proof.
  revert acc. induction d as [|a d IH]; intros acc Hd Hacc; simpl in *; [by eauto|].
  apply andb_prop in Hd as [Ha Hd].
  assert (∃ v, digit_value 10 a = Some v ∧ 0 ≤ v) as (v & -> & Hv).
  { apply is_digit_cases in Ha.
    repeat (apply elem_of_cons in Ha as [->|Ha]; [by eexists; split; [reflexivity|]|]).
    by apply elem_of_nil in Ha. }
  simpl. apply IH; [done|lia].
Qed.

(** On a cleaned, non-empty answer [parseInt] never yields [NaN]. *)
Lemma parseInt_all_digits (d : string) :
  all_digits d = true → d ≠ "" → ∃ n, parseInt d = Some n ∧ 0 ≤ n.
Proof.
  destruct d as [|a d]; [done|]. intros Hd _.
  destruct (parse_digits_all_digits (String a d) 0 Hd) as (n & Hn & Hn0); [done|].
  exists n. split; [|done]. rewrite <- Hn. simpl in Hd.
  apply andb_prop in Hd as [Ha Hd]. apply is_digit_cases in Ha.
  repeat (apply elem_of_cons in Ha as [->|Ha];
          [try (by unfold parseInt; simpl;
                   destruct (parse_digits 10 d _))|]).
  - (* a leading 0 could open a hexadecimal literal, but a digit follows *)
    destruct d as [|b d]; [done|]. simpl in Hd.
    apply andb_prop in Hd as [Hb Hd]. apply is_digit_cases in Hb.
    repeat (apply elem_of_cons in Hb as [->|Hb];
            [by unfold parseInt; simpl; destruct (parse_digits 10 d _)|]).
    by apply elem_of_nil in Hb.
  - by apply elem_of_nil in Ha.
Qed.

(** X25: the prompt of the sun button only lets through a duration that
    [calcCycleStats] can add up.  An accepted answer gives a [sol] event
    at the given time whose [duration] is a string of digits that
    [parseInt] reads as a number of at least 10, and the statistics of
    that event alone have this number as [solDuration]; an answer is
    refused only when it has no digit or its digits read as less than
    10. *)
Theorem sol_prompt_validated (answer : string) (ts : Z) (c : cycle) :
  match solEvent (Some answer) ts with
  | Some ev =>
      ev_type ev = sol ∧ ev_ts ev = ts ∧
      ∃ d n, ev_duration ev = Some d ∧ all_digits d = true ∧
             parseInt d = Some n ∧ 10 ≤ n ∧
             solDuration (stats_of c [ev]) = Some n
  | None =>
      only_digits (trim answer) = "" ∨
      ∃ n, parseInt (only_digits (trim answer)) = Some n ∧ 0 ≤ n < 10
  end.
Proof.
  unfold solEvent.
  destruct (answered (Some answer)) eqn:Hans.
  - destruct (only_digits (trim answer)) as [|a d] eqn:Hclean; simpl; [by left|].
    pose proof (all_digits_only_digits (trim answer)) as Hall. rewrite Hclean in Hall.
    destruct (parseInt_all_digits (String a d) Hall) as (n & Hn & Hn0); [done|].
    unfold parsed_at_least. rewrite Hn. case_bool_decide as Hge; simpl.
    + split; [done|]. split; [done|]. exists (String a d), n.
      split_and!; try done. unfold stats_of; simpl. by rewrite Hn.
    + right. exists n. split; [done|lia].
  - left. unfold answered in Hans. apply andb_false_iff in Hans as [H|H];
      apply negb_false_iff, bool_decide_eq_true in H.
    + by subst.
    + by rewrite H.
Qed.

(** X26: the prompt of the glucose button only lets through a level made
    of two or three digits: an accepted answer gives a [glicemia] event at
    the given time whose [level] is a non-empty string of digits of
    length 2 or 3, which [calcCycleStats] lists among the levels. *)
Theorem glicemia_prompt_validated (answer : option string) (ts : Z) (ev : event) :
  glicemiaEvent answer ts = Some ev →
  ev_type ev = glicemia ∧ ev_ts ev = ts ∧
  ∃ d, ev_level ev = Some d ∧ all_digits d = true ∧
       (2 ≤ String.length d ≤ 3)%nat ∧ truthy (ev_level ev) = true.
Proof.
  unfold glicemiaEvent. destruct answer as [s|]; [|done].
  destruct (answered (Some s)); [|done].
  destruct (only_digits (trim s)) as [|a d] eqn:Hclean; [done|].
  pose proof (all_digits_only_digits (trim s)) as Hall. rewrite Hclean in Hall.
  repeat case_bool_decide; simpl; try done.
  intros [= <-]. simpl. split; [done|]. split; [done|]. eexists. by split_and!.
Qed.

Lemma glicemia_prompt_validated_witness :
  ∃ ev, glicemiaEvent (Some " 120 mg/dL") 7 = Some ev ∧
        ev_type ev = glicemia ∧ ev_ts ev = 7 ∧
        ∃ d, ev_level ev = Some d ∧ all_digits d = true ∧
             (2 ≤ String.length d ≤ 3)%nat ∧ truthy (ev_level ev) = true.
Proof.
  eexists. split; [reflexivity|].
  apply (glicemia_prompt_validated (Some " 120 mg/dL") 7). reflexivity.
Defined.

(** An accepted amount of isotonic drink is a number of at least 100. *)
Lemma isotonic_prompt_validated (answer : option string) (ts : Z) (ev : event) :
  isotonicEvent answer ts = Some ev →
  ev_type ev = isotonic ∧ ev_ts ev = ts ∧ ∃ n, ev_amount ev = Some n ∧ 100 ≤ n.
Proof.
  unfold isotonicEvent, parsed_at_least. destruct answer as [s|]; [|done].
  destruct (answered (Some s)); [|done].
  destruct (negb _); [|done]. simpl.
  destruct (parseInt (only_digits (trim s))) as [n|] eqn:Hn; [|done].
  case_bool_decide; [|done]. intros [= <-]. simpl. eauto.
Qed.

(** ** [addEvent] with its redraw *)

(** What the write of [addEvent] leaves in the store. *)
Lemma addEvent_write_outcome (P : platform) (ev : event) (w : world) :
  ((addEvent_write P ev w).1 = inl RangeError ∧
   (∃ e, ymd (ev_ts ev) = inl e) ∧
   events (addEvent_write P ev w).2 = events w) ∨
  (∃ dk ev', ymd (ev_ts ev) = inr dk ∧
             (ev' = ev ∨ ∃ r, ev' = with_weather ev (Some r)) ∧
             (addEvent_write P ev w).1 = inr tt ∧
             events (addEvent_write P ev w).2 =
               <[from_option id (uuid P 0%nat) (ev_id ev) :=
                   added_record (uuid P 0%nat) dk ev']> (events w)).
Proof.
  destruct (ymd (ev_ts ev)) as [e|dk] eqn:Hd.
  - left. destruct (attachWeather_total P ev w) as (ev' & w1 & Ha & He & Hev).
    assert (ev_ts ev' = ev_ts ev) as Hts by (by destruct Hev as [->|[r ->]]).
    assert (e = RangeError) as ->.
    { revert Hd. unfold ymd. case_bool_decide; [by destruct (civil_from_days _) as [[? ?] ?]|].
      by intros [= <-]. }
    unfold addEvent_write. run. rewrite Ha, Hts, Hd. simpl. eauto.
  - right. destruct (addEvent_puts P ev w dk Hd) as (ev' & w1 & _ & He & Hev & ->).
    exists dk, ev'. simpl. by rewrite He.
Qed.

(** When the lookup fails, the write is the plain [put] of the input. *)
Lemma addEvent_write_failed_lookup (P : platform) (ev : event) (w : world) (dk : string) :
  wants_weather (ev_type ev) = true →
  ymd (ev_ts ev) = inr dk →
  (weatherForEventTs P (ev_ts ev) w).1 = inr None ∨
  (∃ e, (weatherForEventTs P (ev_ts ev) w).1 = inl e) →
  addEvent_write P ev w =
    (inr tt, with_events
               (<[from_option id (uuid P 0%nat) (ev_id ev) :=
                    added_record (uuid P 0%nat) dk ev]>)
               (weatherForEventTs P (ev_ts ev) w).2).
Proof.
  intros Hwants Hd Hfail.
  pose proof (attachWeather_failed P ev w Hfail Hwants) as Ha.
  unfold addEvent_write, put_event. run. by rewrite Ha, Hd.
Qed.




(** C8, as the code has it: when [addEvent] or [updateEvent] is called
    with an event of type [sleep_start], [sleep_end] or [wake] (with a
    [ts] that is a valid date and, for [updateEvent], an id) and the
    weather lookup yields [null] or throws at any stage, the failure of
    the lookup reaches no caller and the record is put with the [weather]
    of the input unchanged: none when the input had none, the old reading
    when it had one.  [updateEvent] then returns normally; [addEvent] goes
    on to its final redraw of the page, and its outcome is the outcome of
    that redraw. *)
Theorem write_survives_weather_failure (P P' : platform) (ev : event) (a : app)
    (dk : string) :
  wants_weather (ev_type ev) = true →
  ymd (ev_ts ev) = inr dk →
  (weatherForEventTs P (ev_ts ev) (app_world a)).1 = inr None ∨
  (∃ e, (weatherForEventTs P (ev_ts ev) (app_world a)).1 = inl e) →
  (addEvent P P' ev a =
     renderCycle P'
       (with_world a
          (with_events
             (<[from_option id (uuid P 0%nat) (ev_id ev) :=
                  added_record (uuid P 0%nat) dk ev]>)
             (weatherForEventTs P (ev_ts ev) (app_world a)).2)) ∧
   app_world (addEvent P P' ev a).2 =
     with_events
       (<[from_option id (uuid P 0%nat) (ev_id ev) :=
            added_record (uuid P 0%nat) dk ev]>)
       (weatherForEventTs P (ev_ts ev) (app_world a)).2 ∧
   ev_weather (added_record (uuid P 0%nat) dk ev) = ev_weather ev) ∧
  (∀ k, ev_id ev = Some k →
     updateEvent P ev (app_world a) =
       (inr tt, with_events (<[k := updated_record dk ev]>)
                  (weatherForEventTs P (ev_ts ev) (app_world a)).2) ∧
     ev_weather (updated_record dk ev) = ev_weather ev).
Proof.
  intros Hwants Hd Hfail.
  pose proof (addEvent_write_failed_lookup P ev (app_world a) dk Hwants Hd Hfail) as Hw.
  split; [split_and!|].
  - rewrite addEvent_unfold. by rewrite Hw.
  - rewrite addEvent_world. by rewrite Hw.
  - done.
  - intros k Hk. split; [|done].
    pose proof (attachWeather_failed P ev (app_world a) Hfail Hwants) as Ha.
    unfold updateEvent, put_event. run. rewrite Ha, Hd. simpl. by rewrite Hk.
Qed.

Lemma write_survives_weather_failure_witness :
  wants_weather sleep_start = true ∧ ymd 0 = inr "1970-01-01" ∧
  (weatherForEventTs offline 0 (app_world night_app)).1 = inr None ∧
  (addEvent offline offline (plain_event "z" sleep_start 0) night_app).1 = inr tt ∧
  events (app_world (addEvent offline offline (plain_event "z" sleep_start 0) night_app).2)
    !! "z" ≫= ev_weather = None.
Proof.
  split; [reflexivity|]. split; [reflexivity|]. split; [reflexivity|].
  destruct (write_survives_weather_failure offline offline
              (plain_event "z" sleep_start 0) night_app "1970-01-01")
    as [(Hcall & Hworld & _) _]; [reflexivity|reflexivity|by left|].
  rewrite Hworld, Hcall. split; by vm_compute.
Defined.

(** The redraw that ends [addEvent] can throw after the event is stored:
    a [wake] at 50 ms is added at 50 ms to a store whose one boundary
    event is a wake-up at 100 ms; the only cycle then starts after now. *)
Example addEvent_redraw_throws :
  (addEvent at_fifty at_fifty (new_event wake 50) late_wakeup_app).1 = inl DataError ∧
  is_Some (events (app_world
             (addEvent at_fifty at_fifty (new_event wake 50) late_wakeup_app).2)
           !! const_uuid 0%nat).
Proof. split; [by vm_compute|]. eexists. by vm_compute. Qed.

(** X11: the three writes keep every record stored under its own id,
    whatever the event, the platform and the outcome of the call. *)
Theorem writes_keep_keyed (P P' : platform) (ev : event) (i : string) (a : app) :
  keyed (events (app_world a)) →
  keyed (events (app_world (addEvent P P' ev a).2)) ∧
  keyed (events (updateEvent P ev (app_world a)).2) ∧
  keyed (events (deleteEvent i (app_world a)).2).
Proof.
  intros Hk. split_and!.
  - rewrite addEvent_world.
    destruct (addEvent_events P ev (app_world a)) as [-> | (rec & k & Hid & ->)]; [done|].
    by apply keyed_insert.
  - destruct (updateEvent_events P ev (app_world a)) as [-> | (rec & k & Hid & ->)]; [done|].
    by apply keyed_insert.
  - simpl. intros j e Hj. apply lookup_delete_Some in Hj as [_ Hj]. by apply Hk.
Qed.

Lemma writes_keep_keyed_witness :
  keyed (events (app_world dated_app)) ∧
  keyed (events (app_world (addEvent offline offline new_bedtime dated_app).2)).
Proof.
  assert (keyed (events (app_world dated_app))) as Hk.
  { intros k e. simpl. rewrite lookup_singleton_Some. by intros [<- <-]. }
  split; [done|].
  by apply (writes_keep_keyed offline offline new_bedtime "a" dated_app).
Defined.

(** X12: [addEvent] stores the event under its own id when it has one and
    under the value of [uuid()] otherwise (for a [ts] that is a valid
    date); the stored record has that id, the type and the [ts] of the
    input, and no other record changes.  This holds of the store after
    the call whether the final redraw returns or throws; the call itself
    ends as that redraw does. *)
Theorem addEvent_assigns_id (P P' : platform) (ev : event) (a : app) (dk : string) :
  ymd (ev_ts ev) = inr dk →
  ∃ rec,
    events (app_world (addEvent P P' ev a).2)
      !! from_option id (uuid P 0%nat) (ev_id ev) = Some rec ∧
    ev_id rec = Some (from_option id (uuid P 0%nat) (ev_id ev)) ∧
    ev_type rec = ev_type ev ∧ ev_ts rec = ev_ts ev ∧
    (∀ j, j ≠ from_option id (uuid P 0%nat) (ev_id ev) →
          events (app_world (addEvent P P' ev a).2) !! j = events (app_world a) !! j) ∧
    (addEvent P P' ev a).1
      = (renderCycle P' (with_world a (addEvent_write P ev (app_world a)).2)).1.
Proof.
  intros Hd. rewrite addEvent_unfold.
  assert (app_world
            match (addEvent_write P ev (app_world a)).1 with
            | inr _ => renderCycle P' (with_world a (addEvent_write P ev (app_world a)).2)
            | inl e => (inl e, with_world a (addEvent_write P ev (app_world a)).2)
            end.2 = (addEvent_write P ev (app_world a)).2) as Hw.
  { rewrite <- addEvent_unfold. apply addEvent_world. }
  rewrite Hw.
  destruct (addEvent_write_outcome P ev (app_world a))
    as [(_ & [e He] & _)|(dk' & ev' & _ & Hev & Hok & ->)]; [congruence|].
  rewrite Hok. exists (added_record (uuid P 0%nat) dk' ev').
  rewrite lookup_insert_eq. split_and!; try (by destruct Hev as [->|[r ->]]).
  intros j Hj. by rewrite lookup_insert_ne.
Qed.

Lemma addEvent_assigns_id_witness :
  ymd (ev_ts new_bedtime) = inr "1970-01-01" ∧
  ∃ rec,
    events (app_world (addEvent offline offline new_bedtime night_app).2)
      !! const_uuid 0%nat = Some rec ∧
    ev_id rec = Some (const_uuid 0%nat) ∧
    ev_type rec = sleep_start ∧ ev_ts rec = 0.
Proof.
  split; [reflexivity|].
  destruct (addEvent_assigns_id offline offline new_bedtime night_app "1970-01-01" eq_refl)
    as (rec & H1 & H2 & H3 & H4 & _).
  exists rec. split; [exact H1|]. split; [exact H2|]. split; [exact H3|exact H4].
Defined.

(** X13: for an event of a type other than [sleep_start], [sleep_end] and
    [wake], neither [addEvent] nor [updateEvent] asks for the position or
    the weather: no request is made, the weather cache is as before, and
    the store after the call is the store before with exactly the record
    built from the input put under its key (unchanged when the call throws
    before the [put]), a record that carries the [weather] of the input;
    this also when the key was already in the store. *)
Theorem writes_without_lookup (P P' : platform) (ev : event) (a : app) :
  wants_weather (ev_type ev) = false →
  (requests (app_world (addEvent P P' ev a).2) = requests (app_world a) ∧
   weather_cache (app_world (addEvent P P' ev a).2) = weather_cache (app_world a) ∧
   events (app_world (addEvent P P' ev a).2) =
     match ymd (ev_ts ev) with
     | inr dk => <[from_option id (uuid P 0%nat) (ev_id ev) :=
                     added_record (uuid P 0%nat) dk ev]> (events (app_world a))
     | inl _ => events (app_world a)
     end ∧
   ∀ dk, ev_weather (added_record (uuid P 0%nat) dk ev) = ev_weather ev) ∧
  (requests (updateEvent P ev (app_world a)).2 = requests (app_world a) ∧
   weather_cache (updateEvent P ev (app_world a)).2 = weather_cache (app_world a) ∧
   events (updateEvent P ev (app_world a)).2 =
     match ymd (ev_ts ev), ev_id ev with
     | inr dk, Some k => <[k := updated_record dk ev]> (events (app_world a))
     | _, _ => events (app_world a)
     end ∧
   ∀ dk, ev_weather (updated_record dk ev) = ev_weather ev).
Proof.
  intros Hno. split.
  - rewrite addEvent_world.
    unfold addEvent_write, attachWeather, put_event. rewrite Hno. run.
    destruct (ymd (ev_ts ev)) as [e|dk]; simpl; [by split_and!|].
    by split_and!.
  - unfold updateEvent, attachWeather, put_event. rewrite Hno. run.
    destruct (ymd (ev_ts ev)) as [e|dk]; simpl; [by split_and!|].
    destruct (ev_id ev) as [i|]; simpl; by split_and!.
Qed.

Lemma writes_without_lookup_witness :
  wants_weather (ev_type water_with_dateKey) = false ∧
  requests (app_world (addEvent no_data no_data water_with_dateKey dated_app).2)
    = requests (app_world dated_app) ∧
  weather_cache (app_world (addEvent no_data no_data water_with_dateKey dated_app).2)
    = weather_cache (app_world dated_app) ∧
  events (updateEvent no_data (plain_event "w" water 7) (app_world dated_app)).2
    = <[ "w" := updated_record "1970-01-01" (plain_event "w" water 7) ]>
        (events (app_world dated_app)).
Proof.
  split; [reflexivity|].
  destruct (writes_without_lookup no_data no_data water_with_dateKey dated_app eq_refl)
    as [(Hr & Hc & _) _].
  destruct (writes_without_lookup no_data no_data (plain_event "w" water 7) dated_app
              eq_refl) as [_ (_ & _ & Hu & _)].
  split; [exact Hr|]. split; [exact Hc|]. exact Hu.
Defined.

(** X14: when the position is known, the cache holds a record with the
    three series for the day of [ts], and that record has a usable sample
    nearest to [ts], [addEvent] of a [sleep_start], [sleep_end] or [wake]
    event stores the event with that sample as its [weather], together
    with the latitude and longitude of the cached record, and makes no
    request; the call then ends as its final redraw does. *)
Theorem addEvent_attaches_weather (P P' : platform) (ev : event) (a : app)
    (lat lon : Z) (dk : string) (c : weather_record) (r : reading) :
  wants_weather (ev_type ev) = true →
  geolocation P = Some (lat, lon) →
  ymd (ev_ts ev) = inr dk →
  weather_cache (app_world a) !! cache_key dk lat lon = Some c →
  has_series c = true →
  nearestWeatherAtTs (Some c) (ev_ts ev) = inr (Some r) →
  app_world (addEvent P P' ev a).2 =
    with_events
      (<[from_option id (uuid P 0%nat) (ev_id ev) :=
           added_record (uuid P 0%nat) dk
             (with_weather ev
                (Some {| w_temp := temp r; w_hum := hum r;
                         w_lat := wr_lat c; w_lon := wr_lon c |}))]>)
      (app_world a) ∧
  addEvent P P' ev a =
    renderCycle P'
      (with_world a
         (with_events
            (<[from_option id (uuid P 0%nat) (ev_id ev) :=
                 added_record (uuid P 0%nat) dk
                   (with_weather ev
                      (Some {| w_temp := temp r; w_hum := hum r;
                               w_lat := wr_lat c; w_lon := wr_lon c |}))]>)
            (app_world a))).
Proof.
  intros Hwants Hloc Hd Hc Hs Hn.
  assert (addEvent_write P ev (app_world a) =
            (inr tt,
             with_events
               (<[from_option id (uuid P 0%nat) (ev_id ev) :=
                    added_record (uuid P 0%nat) dk
                      (with_weather ev
                         (Some {| w_temp := temp r; w_hum := hum r;
                                  w_lat := wr_lat c; w_lon := wr_lon c |}))]>)
               (app_world a))) as Hw.
  { unfold addEvent_write, attachWeather, catch, weatherForEventTs, getLatLon, put_event.
    rewrite Hwants. run. rewrite Hloc.
    rewrite (getDaily_hit P _ lat lon dk (app_world a) c) by done.
    rewrite Hn. simpl. by rewrite Hd. }
  split.
  - rewrite addEvent_world. by rewrite Hw.
  - rewrite addEvent_unfold. by rewrite Hw.
Qed.

Lemma addEvent_attaches_weather_witness :
  wants_weather (ev_type new_bedtime) = true ∧
  geolocation located = Some (0, 0) ∧
  ymd (ev_ts new_bedtime) = inr "1970-01-01" ∧
  weather_cache cached_world !! cache_key "1970-01-01" 0 0 = Some three_hours ∧
  has_series three_hours = true ∧
  nearestWeatherAtTs (Some three_hours) 0 = inr (Some {| temp := 20; hum := 50 |}) ∧
  (events (app_world
             (addEvent located located new_bedtime (with_world blank_app cached_world)).2)
     !! const_uuid 0%nat) ≫= ev_weather
    = Some {| w_temp := 20; w_hum := 50; w_lat := 0; w_lon := 0 |}.
Proof.
  do 6 (split; [reflexivity|]).
  destruct (addEvent_attaches_weather located located new_bedtime
              (with_world blank_app cached_world) 0 0
              "1970-01-01" three_hours {| temp := 20; hum := 50 |}) as [Hw _];
    [reflexivity..|].
  rewrite Hw. reflexivity.
Defined.

(** X15: a [ts] beyond the range of [Date] (more than 8.64e15 ms from the
    epoch) makes [addEvent] and [updateEvent] throw a [RangeError]; no
    event is stored or changed, and [addEvent] does not reach its redraw:
    the cached cycles and the selected index are as before. *)
Theorem writes_reject_invalid_date (P P' : platform) (ev : event) (a : app) :
  maxTime < Z.abs (ev_ts ev) →
  ((addEvent P P' ev a).1 = inl RangeError ∧
   events (app_world (addEvent P P' ev a).2) = events (app_world a) ∧
   state_cycles (addEvent P P' ev a).2 = state_cycles a ∧
   currentCycleIdx (addEvent P P' ev a).2 = currentCycleIdx a) ∧
  ((updateEvent P ev (app_world a)).1 = inl RangeError ∧
   events (updateEvent P ev (app_world a)).2 = events (app_world a)).
Proof.
  intros Hbig.
  assert (ymd (ev_ts ev) = inl RangeError) as Hd.
  { unfold ymd. by rewrite bool_decide_eq_false_2 by lia. }
  destruct (attachWeather_total P ev (app_world a)) as (ev' & w1 & Ha & He & Hev).
  assert (ev_ts ev' = ev_ts ev) as Hts by (by destruct Hev as [->|[r ->]]).
  assert (addEvent_write P ev (app_world a) = (inl RangeError, w1)) as Hw.
  { unfold addEvent_write. run. by rewrite Ha, Hts, Hd. }
  split.
  - rewrite addEvent_unfold, Hw. simpl. by split_and!.
  - unfold updateEvent. run. by rewrite Ha, Hts, Hd.
Qed.

Lemma writes_reject_invalid_date_witness :
  maxTime < Z.abs (ev_ts (plain_event "a" water 8640000000000001)) ∧
  (addEvent offline offline (plain_event "a" water 8640000000000001) blank_app).1
    = inl RangeError.
Proof.
  split; [reflexivity|].
  destruct (writes_reject_invalid_date offline offline
              (plain_event "a" water 8640000000000001) blank_app eq_refl)
    as [[H _] _].
  exact H.
Defined.
